(** * The ingest-store-fanout pipeline of the firehose viewer (src/index.tsx)

    A shallow embedding of the server's core: the post table and its three
    SQL statements, the write batch buffer, the session and tab registries,
    the process-wide event emitter and the per-connection update loop.

    Conventions.
    - A JavaScript string is a [string]; a character is an [ascii].  This is
      exact for ASCII text, where a character is one UTF-16 unit for
      [.length] and one byte for SQLite.
    - A JavaScript value that may be [undefined] is an [option]; truthiness
      of a string-or-undefined is [truthy].
    - The [posts] table is the list of its rows in rowid order.
    - Objects that are shared and mutated (the [Tab] records) live in a
      store of objects and are named by reference.
    - A function of the model is the value the code returns.  The one
      exception the server can run into, the error SQLite raises for a
      LIKE pattern that is too long, is modelled where it has an effect:
      in the turn of an update loop ([update]). *)

From Stdlib Require Import ZArith Ascii String List Sorting.Sorted Permutation.
From stdpp Require Import base option list gmap strings fin_maps pretty.
Import ListNotations.
Open Scope Z_scope.
Open Scope string_scope.

(** ** Constants *)

Definition MIN_FILTER_LENGTH : nat := 3.
Definition FLUSH_POSTS_MS : Z := 300.
Definition POST_RETENTION_MS : Z := 60 * 60 * 1000.
Definition CLEANUP_POSTS_INTERVAL_MS : Z := 60000.
(** The batch size tested in [addPost] and the row limit of both SELECTs. *)
Definition BATCH_SIZE : nat := 100.
Definition QUERY_LIMIT : nat := 100.

(** ** Records *)

Module Post.
Record t : Type := mk { author : string; text : string; timestamp : string; uri : string }.
End Post.

(** A row of [posts(uri TEXT PRIMARY KEY, author, text, timestamp INTEGER)]. *)
Module Row.
Record t : Type := mk { uri : string; author : string; text : string; timestamp : Z }.
End Row.

Module Session.
Record t : Type := mk { id : string; name : string }.
End Session.

Module Tab.
Record t : Type := mk { id : string; sessionId : string; filter : string }.
(** [tab.filter = f]. *)
Definition setFilter (f : string) (tab : t) : t := mk (id tab) (sessionId tab) f.
End Tab.

#[global] Instance post_eq_dec : EqDecision Post.t.
Proof. solve_decision. Defined.
#[global] Instance row_eq_dec : EqDecision Row.t.
Proof. solve_decision. Defined.
#[global] Instance session_eq_dec : EqDecision Session.t.
Proof. solve_decision. Defined.
#[global] Instance tab_eq_dec : EqDecision Tab.t.
Proof. solve_decision. Defined.
#[global] Instance tab_inhabited : Inhabited Tab.t := populate (Tab.mk "" "" "").

(** ** JavaScript truthiness of an optional string *)

Definition truthy (v : option string) : bool :=
  match v with
  | Some (String _ _) => true
  | _ => false
  end.

(** [a || b] on strings. *)
Definition orElse (v : option string) (d : string) : string :=
  match v with
  | Some (String c s) => String c s
  | _ => d
  end.

(** ** SQLite's LIKE

    The default LIKE of SQLite: [%] matches any run of characters, [_] any
    one character, and every other pattern character matches itself with
    the ASCII letters compared without case.  No ESCAPE clause is given in
    the source and [case_sensitive_like] is never set.

    The LIKE function takes the pattern and the text as NUL-terminated
    strings, so what follows a U+0000 in either takes no part in the match
    ([cstring]).  Before it matches, it compares the length of the whole
    pattern with SQLITE_MAX_LIKE_PATTERN_LENGTH and raises "LIKE or GLOB
    pattern too complex" for a longer one ([likeTooComplex]); [likeMatch]
    is the answer of the function when it answers. *)

Definition toLower (c : ascii) : ascii :=
  let n := nat_of_ascii c in
  if (65 <=? n)%nat && (n <=? 90)%nat then ascii_of_nat (n + 32) else c.

Definition eqNoCase (c d : ascii) : bool :=
  bool_decide (toLower c = toLower d).

(** [anySuffix k s]: [k] holds of [s] or of one of its suffixes. *)
Fixpoint anySuffix (k : string -> bool) (s : string) : bool :=
  k s ||
  match s with
  | EmptyString => false
  | String _ s' => anySuffix k s'
  end.

Fixpoint likeMatch (pat s : string) : bool :=
  match pat with
  | EmptyString => match s with EmptyString => true | _ => false end
  | String p pat' =>
      if bool_decide (p = "%"%char) then anySuffix (likeMatch pat') s
      else
        match s with
        | EmptyString => false
        | String c s' =>
            (bool_decide (p = "_"%char) || eqNoCase p c) && likeMatch pat' s'
        end
  end.

(** A string as C reads it: up to the first U+0000. *)
Fixpoint cstring (s : string) : string :=
  match s with
  | EmptyString => EmptyString
  | String c s' =>
      if bool_decide (c = "000"%char) then EmptyString else String c (cstring s')
  end.

(** [text LIKE ?] with the parameter bound to [`%${filter}%`]. *)
Definition textLike (filter text : string) : bool :=
  likeMatch (cstring ("%" ++ filter ++ "%")) (cstring text).

(** SQLITE_MAX_LIKE_PATTERN_LENGTH, which the source leaves at its default. *)
Definition LIKE_PATTERN_LIMIT : Z := 50000.

(** The statement with the WHERE clause, run on a row, raises an error:
    the pattern [`%${filter}%`] has more bytes than the limit. *)
Definition likeTooComplex (filter : string) : bool :=
  truthy (Some filter) &&
  (LIKE_PATTERN_LIMIT <? Z.of_nat (String.length ("%" ++ filter ++ "%")))%Z.

(** ** The [posts] table *)

(** The parts of the JavaScript platform the server calls: date parsing and
    printing, and the rendering of an element tree to markup (the JSX
    components [Posts], [Stats], [DebugInfo], [Page] and their
    [toString]).  Posts reach [addPost] only from the feed handler, which
    builds every timestamp with [toISOString], so [getTime] is a number. *)

Inductive Element : Type :=
  | PostsEl (posts : list Post.t) (filter : string)
  | StatsEl (filter : string) (postsCount totalCount : nat)
  | FilterInputEl (value : string)
  | DebugInfoEl (session : Session.t) (tab : Tab.t) (totalCount : nat)
      (allSessions : gmap string Session.t) (allTabs : gmap string Tab.t)
  | PageEl (session : Session.t) (tab : Tab.t) (filterInput stats posts debug : Element).

Class Host : Type := {
  getTime : string -> Z;
  toISOString : Z -> string;
  render : Element -> string
}.

Definition hasUri (u : string) (rows : list Row.t) : bool :=
  existsb (fun r => bool_decide (Row.uri r = u)) rows.

(** [INSERT OR IGNORE INTO posts ...]: a row whose [uri] is already a key
    is skipped; a new row gets the next rowid. *)
Definition insertOrIgnore (r : Row.t) (rows : list Row.t) : list Row.t :=
  if hasUri (Row.uri r) rows then rows else rows ++ [r].

Definition postRow `{Host} (p : Post.t) : Row.t :=
  Row.mk (Post.uri p) (Post.author p) (Post.text p) (getTime (Post.timestamp p)).

(** The transaction [insertMany]: one [insertStmt.run] per post, in order. *)
Definition insertMany `{Host} (posts : list Post.t) (rows : list Row.t) : list Row.t :=
  fold_left (fun acc p => insertOrIgnore (postRow p) acc) posts rows.

(** [DELETE FROM posts WHERE timestamp < ?]. *)
Definition deleteOlderThan (cutoff : Z) (rows : list Row.t) : list Row.t :=
  List.filter (fun r => negb (Row.timestamp r <? cutoff)%Z) rows.

(** [ORDER BY timestamp DESC].  SQL leaves the order of rows with equal
    timestamps open; [orderDesc] puts the row inserted last first, the
    order of a backward walk of [idx_timestamp]. *)
Fixpoint insertDesc (r : Row.t) (l : list Row.t) : list Row.t :=
  match l with
  | [] => [r]
  | x :: l' =>
      if (Row.timestamp r <? Row.timestamp x)%Z then x :: insertDesc r l' else r :: l
  end.

Definition orderDesc (rows : list Row.t) : list Row.t :=
  fold_right insertDesc [] (rev rows).

(** The statement [queryPosts] prepares has [WHERE text LIKE ?], bound to
    [`%${filter}%`], when [filter] is truthy, and no WHERE clause otherwise.
    [whereLike], [selectPosts] and [queryPosts] are what the query returns
    when it returns; on a table with a row and a filter for which
    [likeTooComplex] holds, [stmt.all] throws instead, and [update] below,
    the one caller that passes a filter, has that path. *)
Definition whereLike (filter : string) (rows : list Row.t) : list Row.t :=
  if truthy (Some filter)
  then List.filter (fun r => textLike filter (Row.text r)) rows
  else rows.

(** [SELECT * FROM posts ... ORDER BY timestamp DESC LIMIT 100]: the rows
    [stmt.all] returns. *)
Definition selectPosts (filter : string) (rows : list Row.t) : list Row.t :=
  firstn QUERY_LIMIT (orderDesc (whereLike filter rows)).

Definition rowPost `{Host} (r : Row.t) : Post.t :=
  Post.mk (Row.author r) (Row.text r) (toISOString (Row.timestamp r)) (Row.uri r).

Definition queryPosts `{Host} (filter : string) (rows : list Row.t) : list Post.t :=
  map rowPost (selectPosts filter rows).

Definition getTotalCount (rows : list Row.t) : nat := length rows.

(** ** Server state *)

(** An event stream: the variables its closures capture ([session], the
    [tab] object), the "update" events buffered by the iterator of
    [on(updateQueue, "update")], and whether that iterator still listens
    ([c_open]; it stops when the abort handler runs or the loop is left). *)
Record Conn : Type := mkConn {
  c_session : Session.t;
  c_tab : nat;
  c_pending : nat;
  c_open : bool
}.

Inductive Notification : Type :=
  | PostsAdded
  | FilterUpdated (tabId : string).

#[global] Instance notification_eq_dec : EqDecision Notification.
Proof. solve_decision. Defined.

Record State : Type := mkState {
  sessions : gmap string Session.t;
  (** [tabs]: the registry maps a tab id to a reference to a Tab object. *)
  tabs : gmap string nat;
  (** the Tab objects ever created through [getOrCreateTab], by reference *)
  tabObjects : list Tab.t;
  streams : list Conn;
  (** listeners of [events], by the stream that registered them, in
      registration order *)
  postsAddedListeners : list nat;
  filterUpdatedListeners : list nat;
  db : list Row.t;
  batchBuffer : list Post.t;
  (** record of the calls of [events.emit], oldest first *)
  emitted : list Notification
}.

Definition initial : State := mkState ∅ ∅ [] [] [] [] [] [] [].

Definition setSessions (x : gmap string Session.t) (st : State) : State :=
  mkState x (tabs st) (tabObjects st) (streams st) (postsAddedListeners st)
    (filterUpdatedListeners st) (db st) (batchBuffer st) (emitted st).
Definition setTabs (x : gmap string nat) (st : State) : State :=
  mkState (sessions st) x (tabObjects st) (streams st) (postsAddedListeners st)
    (filterUpdatedListeners st) (db st) (batchBuffer st) (emitted st).
Definition setTabObjects (x : list Tab.t) (st : State) : State :=
  mkState (sessions st) (tabs st) x (streams st) (postsAddedListeners st)
    (filterUpdatedListeners st) (db st) (batchBuffer st) (emitted st).
Definition setStreams (x : list Conn) (st : State) : State :=
  mkState (sessions st) (tabs st) (tabObjects st) x (postsAddedListeners st)
    (filterUpdatedListeners st) (db st) (batchBuffer st) (emitted st).
Definition setPostsAddedListeners (x : list nat) (st : State) : State :=
  mkState (sessions st) (tabs st) (tabObjects st) (streams st) x
    (filterUpdatedListeners st) (db st) (batchBuffer st) (emitted st).
Definition setFilterUpdatedListeners (x : list nat) (st : State) : State :=
  mkState (sessions st) (tabs st) (tabObjects st) (streams st) (postsAddedListeners st)
    x (db st) (batchBuffer st) (emitted st).
Definition setDb (x : list Row.t) (st : State) : State :=
  mkState (sessions st) (tabs st) (tabObjects st) (streams st) (postsAddedListeners st)
    (filterUpdatedListeners st) x (batchBuffer st) (emitted st).
Definition setBatchBuffer (x : list Post.t) (st : State) : State :=
  mkState (sessions st) (tabs st) (tabObjects st) (streams st) (postsAddedListeners st)
    (filterUpdatedListeners st) (db st) x (emitted st).
Definition setEmitted (x : list Notification) (st : State) : State :=
  mkState (sessions st) (tabs st) (tabObjects st) (streams st) (postsAddedListeners st)
    (filterUpdatedListeners st) (db st) (batchBuffer st) x.

(** ** The event emitter [events] *)

(** [updateQueue.emit("update")] of stream [c]: the iterator buffers the
    event while it is live. *)
Definition buffered (cn : Conn) : Conn :=
  if c_open cn then mkConn (c_session cn) (c_tab cn) (S (c_pending cn)) true else cn.

Definition queueUpdate (c : nat) (st : State) : State :=
  setStreams (alter buffered c (streams st)) st.

Definition postsListener (c : nat) (st : State) : State := queueUpdate c st.

Definition filterListener (c : nat) (updatedTabId : string) (st : State) : State :=
  match streams st !! c with
  | Some cn =>
      if bool_decide (updatedTabId = Tab.id (tabObjects st !!! c_tab cn))
      then queueUpdate c st
      else st
  | None => st
  end.

(** [events.emit]: the listeners of the topic run in registration order. *)
Definition emit (n : Notification) (st : State) : State :=
  let st := setEmitted (emitted st ++ [n]) st in
  match n with
  | PostsAdded =>
      fold_left (fun s c => postsListener c s) (postsAddedListeners st) st
  | FilterUpdated tabId =>
      fold_left (fun s c => filterListener c tabId s) (filterUpdatedListeners st) st
  end.

(** [events.off]: removes the most recently added instance of a listener. *)
Fixpoint removeFirst (c : nat) (l : list nat) : list nat :=
  match l with
  | [] => []
  | x :: l' => if bool_decide (x = c) then l' else x :: removeFirst c l'
  end.

Definition off (c : nat) (l : list nat) : list nat :=
  rev (removeFirst c (rev l)).

(** ** The batch buffer *)

Definition flushPosts `{Host} (st : State) : State :=
  match batchBuffer st with
  | [] => st
  | _ =>
      let st := setDb (insertMany (batchBuffer st) (db st)) st in
      let st := setBatchBuffer [] st in
      emit PostsAdded st
  end.

Definition addPost `{Host} (post : Post.t) (st : State) : State :=
  let st := setBatchBuffer (batchBuffer st ++ [post]) st in
  if (BATCH_SIZE <=? length (batchBuffer st))%nat then flushPosts st else st.

Definition cleanupOldPosts (now : Z) (st : State) : State :=
  let cutoff := now - POST_RETENTION_MS in
  setDb (deleteOlderThan cutoff (db st)) st.

(** ** Sessions and tabs *)

Definition adjectives : list string :=
  ["happy"; "curious"; "dancing"; "sleepy"; "brave";
   "clever"; "gentle"; "wild"; "quiet"; "loud"].
Definition animals : list string :=
  ["penguin"; "octopus"; "dolphin"; "panda"; "fox";
   "owl"; "koala"; "tiger"; "rabbit"; "bear"].

(** The values drawn while one request is served: the two indices
    [Math.floor(Math.random() * 10)] of [generateSessionName] and the
    results of the two calls of [crypto.randomUUID]. *)
Record Draws : Type := mkDraws {
  sessionUuid : string;
  adjIndex : nat;
  animalIndex : nat;
  tabUuid : string
}.

Definition generateSessionName (r : Draws) : string :=
  (adjectives !!! (adjIndex r `mod` 10)%nat) ++ "-" ++
  (animals !!! (animalIndex r `mod` 10)%nat).

Definition newSession (r : Draws) (st : State) : Session.t * State :=
  let session := Session.mk (sessionUuid r) (generateSessionName r) in
  (session, setSessions (<[Session.id session := session]> (sessions st)) st).

Definition getOrCreateSession (sessionId : option string) (r : Draws) (st : State)
  : Session.t * State :=
  match sessionId with
  | Some sid =>
      if truthy sessionId then
        match sessions st !! sid with
        | Some session => (session, st)
        | None => newSession r st
        end
      else newSession r st
  | None => newSession r st
  end.

(** Allocates the object [{ id: tabId || crypto.randomUUID(), sessionId,
    filter: "" }] and enters it into [tabs]. *)
Definition newTab (tabId : option string) (sessionId : string) (r : Draws) (st : State)
  : nat * State :=
  let tab := Tab.mk (orElse tabId (tabUuid r)) sessionId "" in
  let ref := length (tabObjects st) in
  let st := setTabObjects (tabObjects st ++ [tab]) st in
  (ref, setTabs (<[Tab.id tab := ref]> (tabs st)) st).

Definition getOrCreateTab (tabId : option string) (sessionId : string) (r : Draws)
    (st : State) : nat * State :=
  match tabId with
  | Some tid =>
      if truthy tabId then
        match tabs st !! tid with
        | Some ref => (ref, st)
        | None => newTab tabId sessionId r st
        end
      else newTab tabId sessionId r st
  | None => newTab tabId sessionId r st
  end.

(** ** Rendering passes *)

(** [tab.filter.length >= MIN_FILTER_LENGTH ? tab.filter : ""]. *)
Definition effectiveFilter (tab : Tab.t) : string :=
  if (MIN_FILTER_LENGTH <=? String.length (Tab.filter tab))%nat
  then Tab.filter tab else "".

(** The Tab objects that [tabs.values()] holds. *)
Definition tabValues (st : State) : gmap string Tab.t :=
  (fun ref => tabObjects st !!! ref) <$> tabs st.

Definition DebugInfo (session : Session.t) (tab : Tab.t) (totalCount : nat) (st : State)
  : Element :=
  DebugInfoEl session tab totalCount (sessions st) (tabValues st).

(** [str.replaceAll("\n", "")]. *)
Fixpoint stripNewlines (s : string) : string :=
  match s with
  | EmptyString => EmptyString
  | String c s' =>
      if bool_decide (c = "010"%char) then stripNewlines s'
      else String c (stripNewlines s')
  end.

(** What one pass of [sendUpdate] computes: the three rendered fragments. *)
Record Patch : Type := mkPatch {
  postsHtml : string;
  statsHtml : string;
  debugHtml : string
}.

Definition patchData (p : Patch) : string :=
  "elements " ++ postsHtml p ++ " " ++ statsHtml p ++ " " ++ debugHtml p.

Definition sendUpdate `{Host} (session : Session.t) (tab : Tab.t) (st : State) : Patch :=
  let filter := effectiveFilter tab in
  let posts := queryPosts filter (db st) in
  let totalCount := getTotalCount (db st) in
  mkPatch
    (stripNewlines (render (PostsEl posts filter)))
    (stripNewlines (render (StatsEl filter (length posts) totalCount)))
    (stripNewlines (render (DebugInfo session tab totalCount st))).

(** [Page] down to [ContainerContent], for the plain page. *)
Definition Page `{Host} (session : Session.t) (tab : Tab.t) (st : State) : Element :=
  let filter := effectiveFilter tab in
  let posts := queryPosts filter (db st) in
  let totalCount := getTotalCount (db st) in
  PageEl session tab
    (FilterInputEl (Tab.filter tab))
    (StatsEl filter (length posts) totalCount)
    (PostsEl posts filter)
    (DebugInfo session tab totalCount st).

(** ** Requests, timers and connection events *)

Inductive Response : Type :=
  | Html (page : string)
  | SseOpened (c : nat)
  | SsePatch (c : nat) (data : string)
  | Json (status : nat) (error : string)
  | NoBody
  | Quiet.

#[global] Instance response_eq_dec : EqDecision Response.
Proof. solve_decision. Defined.

(** [GET /] without the [datastar-request] header: the tab is built in
    place and handed to [Page]; [getOrCreateTab] is not called. *)
Definition getPage `{Host} (cookieSessionId : option string) (r : Draws) (st : State)
  : Response * State :=
  let '(session, st) := getOrCreateSession cookieSessionId r st in
  let tab := Tab.mk (tabUuid r) (Session.id session) "" in
  (Html (render (Page session tab st)), st).

(** [signals.tabId && signals.tabId !== "" ? signals.tabId : undefined]. *)
Definition signalTabId (tabId : option string) : option string :=
  if truthy tabId then tabId else None.

(** [GET /] with the [datastar-request] header, up to the first suspension
    of the stream callback: both listeners are registered, the abort
    handler is installed and the iterator of the update queue is live. *)
Definition getLive (sessionId tabId : option string) (r : Draws) (st : State)
  : Response * State :=
  let '(session, st) := getOrCreateSession sessionId r st in
  let '(ref, st) := getOrCreateTab (signalTabId tabId) (Session.id session) r st in
  let c := length (streams st) in
  let st := setStreams (streams st ++ [mkConn session ref 0 true]) st in
  let st := setPostsAddedListeners (postsAddedListeners st ++ [c]) st in
  let st := setFilterUpdatedListeners (filterUpdatedListeners st ++ [c]) st in
  (SseOpened c, st).

(** The handler of the abort signal of stream [c]; it runs once.  Both
    listeners are removed and the tab id is deleted from [tabs].  The
    iterator of [on(updateQueue, "update")] stops listening, but it keeps
    the events it has buffered: the loop is handed those first and meets
    ABORT_ERR only after them. *)
Definition abort (c : nat) (st : State) : State :=
  match streams st !! c with
  | Some cn =>
      if c_open cn then
        let st := setPostsAddedListeners (off c (postsAddedListeners st)) st in
        let st := setFilterUpdatedListeners (off c (filterUpdatedListeners st)) st in
        let st := setTabs (delete (Tab.id (tabObjects st !!! c_tab cn)) (tabs st)) st in
        setStreams
          (<[c := mkConn (c_session cn) (c_tab cn) (c_pending cn) false]> (streams st)) st
      else st
  | None => st
  end.

(** [queryPosts(filter)] inside [sendUpdate] throws: the filter the tab
    has is beyond the limit of LIKE and the table has a row to test. *)
Definition sendUpdateThrows (tab : Tab.t) (st : State) : bool :=
  likeTooComplex (effectiveFilter tab) &&
  match db st with
  | [] => false
  | _ :: _ => true
  end.

(** One turn of the [for await] loop of stream [c]: a buffered "update" is
    taken and [sendUpdate] renders a patch event and hands it to
    [writeSSE] ([SsePatch]).  This goes on after the abort handler has run,
    for the updates buffered before it, though no client is left to read
    what is written.  When [sendUpdate] throws, nothing is written, the
    exception leaves the loop and is thrown again by the [catch] clause:
    the loop is over, what was buffered is lost, and neither [events.off]
    nor [tabs.delete] is called (the stream is then closed by [streamSSE],
    so its abort handler will not run either, and [abort] does nothing
    for it). *)
Definition update `{Host} (c : nat) (st : State) : Response * State :=
  match streams st !! c with
  | Some cn =>
      match c_pending cn with
      | O => (Quiet, st)
      | S n =>
          if sendUpdateThrows (tabObjects st !!! c_tab cn) st then
            (Quiet,
             setStreams (<[c := mkConn (c_session cn) (c_tab cn) 0 false]> (streams st)) st)
          else
            let st := setStreams
                        (<[c := mkConn (c_session cn) (c_tab cn) n (c_open cn)]>
                           (streams st)) st in
            (SsePatch c (patchData (sendUpdate (c_session cn) (tabObjects st !!! c_tab cn) st)),
             st)
      end
  | None => (Quiet, st)
  end.

(** [POST /filter] with body [{ tabId, filter }]. *)
Definition postFilter (tabId filter : option string) (st : State) : Response * State :=
  match tabId with
  | Some tid =>
      if truthy tabId then
        match tabs st !! tid with
        | Some ref =>
            let st := setTabObjects
                        (alter (Tab.setFilter (orElse filter "")) ref (tabObjects st)) st in
            let st := emit (FilterUpdated (Tab.id (tabObjects st !!! ref))) st in
            (NoBody, st)
        | None => (Json 404 "Tab not found", st)
        end
      else (Json 400 "Missing tab ID", st)
  | None => (Json 400 "Missing tab ID", st)
  end.

Inductive Event : Type :=
  | GetPage (cookieSessionId : option string) (r : Draws)
  | GetLive (sessionId tabId : option string) (r : Draws)
  | PostFilter (tabId filter : option string)
  | Abort (c : nat)
  | Update (c : nat)
  | FeedPost (post : Post.t)
  | FlushTick
  | CleanupTick (now : Z).

(** Every callback runs to completion before the next one starts. *)
Definition step `{Host} (e : Event) (st : State) : Response * State :=
  match e with
  | GetPage sid r => getPage sid r st
  | GetLive sid tid r => getLive sid tid r st
  | PostFilter tid f => postFilter tid f st
  | Abort c => (Quiet, abort c st)
  | Update c => update c st
  | FeedPost p => (Quiet, addPost p st)
  | FlushTick => (Quiet, flushPosts st)
  | CleanupTick now => (Quiet, cleanupOldPosts now st)
  end.

Definition run `{Host} (es : list Event) (st : State) : State :=
  fold_left (fun s e => snd (step e s)) es st.

(** The responses of a sequence of events, in order. *)
Fixpoint responses `{Host} (es : list Event) (st : State) : list Response :=
  match es with
  | [] => []
  | e :: es' => fst (step e st) :: responses es' (snd (step e st))
  end.

(** ** Well-formed states *)

(** What a stream is apart from its buffered updates. *)
Definition shape (cn : Conn) : Session.t * nat * bool :=
  (c_session cn, c_tab cn, c_open cn).

Definition liveStream (st : State) (c : nat) : Prop :=
  exists cn, streams st !! c = Some cn /\ c_open cn = true.

(** The invariant of the states the server is in as long as no loop has
    been left by an exception: a registered tab id is the id of the object
    it refers to; every stream holds a reference to an object; the
    listeners of either topic are those of the live streams, each once;
    [uri] is a key of the table; between callbacks the batch buffer is
    below the threshold. *)
Record wf (st : State) : Prop := mkWf {
  wf_tabs : forall tid ref, tabs st !! tid = Some ref ->
            exists tab, tabObjects st !! ref = Some tab /\ Tab.id tab = tid;
  wf_stream_tab : forall c cn, streams st !! c = Some cn ->
                  (c_tab cn < length (tabObjects st))%nat;
  wf_postsAdded_NoDup : NoDup (postsAddedListeners st);
  wf_filterUpdated_NoDup : NoDup (filterUpdatedListeners st);
  wf_postsAdded_live : forall c, c ∈ postsAddedListeners st <-> liveStream st c;
  wf_filterUpdated_live : forall c, c ∈ filterUpdatedListeners st <-> liveStream st c;
  wf_db : List.NoDup (map Row.uri (db st));
  wf_batchBuffer : (length (batchBuffer st) < BATCH_SIZE)%nat
}.

(** An event in which no live connection is opened. *)
Definition notGetLive (e : Event) : bool :=
  match e with
  | GetLive _ _ _ => false
  | _ => true
  end.

(** ** A host to run the model on

    [Date.prototype.toISOString] and the parsing of the strings it prints
    (proleptic Gregorian calendar, UTC), and a plain-text rendering of the
    element tree that shows every property. *)

Definition digit (n : Z) : ascii := ascii_of_nat (48 + Z.to_nat (n mod 10)).

Fixpoint pad (w : nat) (n : Z) : string :=
  match w with
  | O => ""
  | S w' => pad w' (n / 10) ++ String (digit n) ""
  end.

Definition civilFromDays (days : Z) : Z * Z * Z :=
  let z := days + 719468 in
  let era := z / 146097 in
  let doe := z - era * 146097 in
  let yoe := (doe - doe / 1460 + doe / 36524 - doe / 146096) / 365 in
  let doy := doe - (365 * yoe + yoe / 4 - yoe / 100) in
  let mp := (5 * doy + 2) / 153 in
  let d := doy - (153 * mp + 2) / 5 + 1 in
  let m := if (mp <? 10)%Z then mp + 3 else mp - 9 in
  let y := yoe + era * 400 in
  (if (m <=? 2)%Z then y + 1 else y, m, d).

Definition daysFromCivil (y m d : Z) : Z :=
  let y := if (m <=? 2)%Z then y - 1 else y in
  let era := y / 400 in
  let yoe := y - era * 400 in
  let mp := (m + 9) mod 12 in
  let doy := (153 * mp + 2) / 5 + d - 1 in
  let doe := yoe * 365 + yoe / 4 - yoe / 100 + doy in
  era * 146097 + doe - 719468.

Definition isoString (t : Z) : string :=
  let '(y, m, d) := civilFromDays (t / 86400000) in
  let ms := t mod 86400000 in
  let year :=
    if (0 <=? y)%Z && (y <=? 9999)%Z then pad 4 y
    else (if (y <? 0)%Z then "-" else "+") ++ pad 6 (Z.abs y) in
  year ++ "-" ++ pad 2 m ++ "-" ++ pad 2 d ++ "T" ++
  pad 2 (ms / 3600000) ++ ":" ++ pad 2 (ms / 60000 mod 60) ++ ":" ++
  pad 2 (ms / 1000 mod 60) ++ "." ++ pad 3 (ms mod 1000) ++ "Z".

Fixpoint digits (acc : Z) (s : string) : option Z :=
  match s with
  | EmptyString => Some acc
  | String c s' =>
      let n := nat_of_ascii c in
      if (48 <=? n)%nat && (n <=? 57)%nat
      then digits (10 * acc + Z.of_nat (n - 48)) s'
      else None
  end.

Definition field (s : string) (start len : nat) : option Z :=
  digits 0 (substring start len s).

(** The 24-character form [YYYY-MM-DDTHH:mm:ss.sssZ], the only one the
    examples use; [None] stands for a string this parser does not read,
    and [isoTime] is 0 there. *)
Definition parseIso (s : string) : option Z :=
  if bool_decide (String.length s = 24%nat) then
    y ← field s 0 4; m ← field s 5 2; d ← field s 8 2;
    hh ← field s 11 2; mm ← field s 14 2; ss ← field s 17 2; ms ← field s 20 3;
    Some (daysFromCivil y m d * 86400000 + hh * 3600000 + mm * 60000 + ss * 1000 + ms)%Z
  else None.

Definition isoTime (s : string) : Z := default 0 (parseIso s).

Definition showPost (p : Post.t) : string :=
  "[" ++ Post.uri p ++ " " ++ Post.author p ++ " " ++ Post.timestamp p ++ "] " ++
  Post.text p.

Definition showTab (kv : string * Tab.t) : string :=
  Tab.id kv.2 ++ "/" ++ Tab.sessionId kv.2 ++ "/" ++ Tab.filter kv.2.

Definition showSession (kv : string * Session.t) : string :=
  Session.id kv.2 ++ "/" ++ Session.name kv.2.

Definition lines (l : list string) : string :=
  fold_right (fun s acc => s ++ String "010" acc) "" l.

Fixpoint showElement (e : Element) : string :=
  match e with
  | PostsEl posts filter => "posts{" ++ filter ++ "}" ++ lines (map showPost posts)
  | StatsEl filter n total => "stats{" ++ filter ++ "}" ++ pretty n ++ "/" ++ pretty total
  | FilterInputEl value => "input{" ++ value ++ "}"
  | DebugInfoEl session tab total allSessions allTabs =>
      "debug{" ++ Session.name session ++ " " ++ Tab.id tab ++ " " ++ Tab.filter tab ++
      " " ++ pretty total ++ "}" ++
      lines (map showSession (map_to_list allSessions)) ++
      lines (map showTab (map_to_list allTabs))
  | PageEl session tab input stats posts debug =>
      "page{" ++ Session.id session ++ " " ++ Tab.id tab ++ "}" ++
      showElement input ++ showElement stats ++ showElement posts ++ showElement debug
  end.

Definition exampleHost : Host :=
  {| getTime := isoTime; toISOString := isoString; render := showElement |}.

(** The events of the end-to-end scenario of the specification, and a
    state in which [E1] and [E2] are stored and [E3], which repeats the
    uri of [E1], waits in the batch buffer. *)
Definition E1 : Post.t := Post.mk "did:a" "hello world" "1970-01-01T00:00:01.000Z" "u1".
Definition E2 : Post.t := Post.mk "did:b" "goodbye" "1970-01-01T00:00:02.000Z" "u2".
Definition E3 : Post.t := Post.mk "did:c" "duplicate" "1970-01-01T00:00:03.000Z" "u1".

Definition rowE1 : Row.t := Row.mk "u1" "did:a" "hello world" 1000.
Definition rowE2 : Row.t := Row.mk "u2" "did:b" "goodbye" 2000.

Definition storedE1E2 : State := setDb [rowE1; rowE2] initial.
Definition pendingE3 : State := setBatchBuffer [E3] storedE1E2.

(** A batch of 100 posts with distinct uris. *)
Definition numbered (n : nat) : Post.t :=
  Post.mk "did:n" ("post " ++ pretty n) "1970-01-01T00:00:05.000Z" ("n" ++ pretty n).
Definition hundred : list Post.t := map numbered (seq 0 100).

(** Two live connections, opened for the tab ids "tabA" and "tabB". *)
Definition draws1 : Draws := mkDraws "session-1" 3 4 "tab-uuid-1".
Definition draws2 : Draws := mkDraws "session-2" 0 7 "tab-uuid-2".
Definition liveA : State := snd (getLive None (Some "tabA") draws1 initial).
Definition liveAB : State := snd (getLive None (Some "tabB") draws2 liveA).



(** The tab id under which a live [GET /] looks for a tab and, when there
    is none, registers a new one: the id of the signals, or else the one
    drawn. *)
Definition liveTabId (e : Event) : option string :=
  match e with
  | GetLive _ tabId r => Some (orElse tabId (tabUuid r))
  | _ => None
  end.

(** An event that is no live [GET /] for the tab id [u]. *)
Definition avoidsTab (u : string) (e : Event) : bool :=
  negb (bool_decide (liveTabId e = Some u)).

(** A filter update whose filter LIKE accepts; every other event. *)
Definition filterWithinLimit (e : Event) : bool :=
  match e with
  | PostFilter _ filter => negb (likeTooComplex (orElse filter ""))
  | _ => true
  end.

(** No tab object holds a filter that LIKE refuses. *)
Definition tabsBounded (st : State) : Prop :=
  Forall (fun tab => likeTooComplex (Tab.filter tab) = false) (tabObjects st).

(** ** Substring tests, in the words of the specification *)

(** [s.startsWith(f)], and [s.includes(f)]: a case-sensitive substring. *)
Fixpoint startsWith (f s : string) : bool :=
  match f, s with
  | EmptyString, _ => true
  | String _ _, EmptyString => false
  | String a f', String b s' => bool_decide (a = b) && startsWith f' s'
  end.

Definition includes (f s : string) : bool := anySuffix (startsWith f) s.

(** The same two tests with the ASCII letters compared without case. *)
Fixpoint startsWithNoCase (f s : string) : bool :=
  match f, s with
  | EmptyString, _ => true
  | String _ _, EmptyString => false
  | String a f', String b s' => eqNoCase a b && startsWithNoCase f' s'
  end.

Definition includesNoCase (f s : string) : bool := anySuffix (startsWithNoCase f) s.

Fixpoint lowerCase (s : string) : string :=
  match s with
  | EmptyString => EmptyString
  | String c s' => String (toLower c) (lowerCase s')
  end.

(** A filter in which neither [%] nor [_] occurs. *)
Fixpoint noWildcard (f : string) : bool :=
  match f with
  | EmptyString => true
  | String c f' =>
      negb (bool_decide (c = "%"%char)) && negb (bool_decide (c = "_"%char)) &&
      noWildcard f'
  end.

(** Rows by descending timestamp. *)
Definition newerFirst (a b : Row.t) : Prop := (Row.timestamp b <= Row.timestamp a)%Z.

(** ** Markup: [escapeHtml] and [highlightText] *)

Definition dquote : ascii := "034"%char.

(** [s.replace(/c/g, rep)] for a one-character pattern. *)
Fixpoint replaceChar (c : ascii) (rep : string) (s : string) : string :=
  match s with
  | EmptyString => EmptyString
  | String x s' =>
      if bool_decide (x = c) then rep ++ replaceChar c rep s'
      else String x (replaceChar c rep s')
  end.

(** The five replacements, in the order of the source. *)
Definition escapeHtml (text : string) : string :=
  replaceChar "'"%char "&#039;"
    (replaceChar dquote "&quot;"
       (replaceChar ">"%char "&gt;"
          (replaceChar "<"%char "&lt;"
             (replaceChar "&"%char "&amp;" text)))).

(** What one character becomes when a text is escaped in one pass. *)
Definition escapeChar (c : ascii) : string :=
  if bool_decide (c = "&"%char) then "&amp;"
  else if bool_decide (c = "<"%char) then "&lt;"
  else if bool_decide (c = ">"%char) then "&gt;"
  else if bool_decide (c = dquote) then "&quot;"
  else if bool_decide (c = "'"%char) then "&#039;"
  else String c "".

Fixpoint escapeEach (s : string) : string :=
  match s with
  | EmptyString => EmptyString
  | String c s' => escapeChar c ++ escapeEach s'
  end.

(** The characters with which markup or an attribute value can be left. *)
Definition isMarkupChar (c : ascii) : bool :=
  bool_decide (c = "<"%char) || bool_decide (c = ">"%char) ||
  bool_decide (c = dquote) || bool_decide (c = "'"%char).

Fixpoint occurs (c : ascii) (s : string) : bool :=
  match s with
  | EmptyString => false
  | String x s' => bool_decide (x = c) || occurs c s'
  end.

Fixpoint allChars (P : ascii -> bool) (s : string) : bool :=
  match s with
  | EmptyString => true
  | String x s' => P x && allChars P s'
  end.

(** [s.slice(from, to)] for [from <= to]; and [s.slice(n)]. *)
Definition slice (from to : nat) (s : string) : string := substring from (to - from) s.

Fixpoint skipChars (n : nat) (s : string) : string :=
  match n, s with
  | O, _ => s
  | S _, EmptyString => EmptyString
  | S n', String _ s' => skipChars n' s'
  end.

(** [s.indexOf(pat)], with [None] for -1. *)
Fixpoint indexOf (pat s : string) : option nat :=
  if startsWith pat s then Some O
  else
    match s with
    | EmptyString => None
    | String _ s' => S <$> indexOf pat s'
    end.

(** [s.replace(new RegExp("(" + quoted pat + ")", "gi"), "<mark>$1</mark>")]
    for a pattern that is not empty: the pattern is quoted, so it matches
    itself, without regard to the case of ASCII letters; matches are taken
    from left to right and do not overlap.  [fuel] bounds the number of
    steps, and the length of [s] is enough. *)
Fixpoint markFuel (fuel : nat) (pat s : string) : string :=
  match fuel with
  | O => s
  | S fuel' =>
      match s with
      | EmptyString => EmptyString
      | String c s' =>
          if startsWithNoCase pat s
          then "<mark>" ++ substring 0 (String.length pat) s ++ "</mark>" ++
               markFuel fuel' pat (skipChars (String.length pat) s)
          else String c (markFuel fuel' pat s')
      end
  end.

Definition markAll (pat s : string) : string := markFuel (String.length s) pat s.

(** [highlightText]; [toLowerCase] is [lowerCase] on ASCII text. *)
Definition highlightText (text filter : string) : string :=
  if truthy (Some filter) then
    match indexOf (lowerCase filter) (lowerCase text) with
    | None => escapeHtml (slice 0 280 text)
    | Some matchIndex =>
        let far := (180 <? matchIndex)%nat in
        let start := if far then Nat.max 0 (matchIndex - 100) else O in
        let prefix := if far then "..." else "" in
        let long := (start + 280 <? String.length text)%nat in
        let end_ := if long then (start + 280)%nat else String.length text in
        let suffix := if long then "..." else "" in
        let snippet := slice start end_ text in
        let escaped := escapeHtml snippet in
        let filterEscaped := escapeHtml filter in
        prefix ++ markAll filterEscaped escaped ++ suffix
    end
  else escapeHtml (slice 0 280 text).

(** [marked pat out plain]: [out] is [plain] with some of the places where
    [pat] occurs in it, in whatever case, wrapped in a [mark] element. *)
Inductive marked (pat : string) : string -> string -> Prop :=
  | marked_nil : marked pat "" ""
  | marked_char c out plain :
      marked pat out plain -> marked pat (String c out) (String c plain)
  | marked_mark w out plain :
      w <> "" -> lowerCase w = lowerCase pat -> marked pat out plain ->
      marked pat ("<mark>" ++ w ++ "</mark>" ++ out) (w ++ plain).

(** [s.split(c)]. *)
Fixpoint splitOn (c : ascii) (s : string) : list string :=
  match s with
  | EmptyString => [EmptyString]
  | String x s' =>
      if bool_decide (x = c) then EmptyString :: splitOn c s'
      else
        match splitOn c s' with
        | h :: t => String x h :: t
        | [] => [String x EmptyString]
        end
  end.

(** The author shown by [PostItem]:
    [post.author.split(":").pop()?.slice(0, 16) || "unknown"]. *)
Definition authorHandle (author : string) : string :=
  orElse (Some (slice 0 16 (List.last (splitOn ":"%char author) EmptyString))) "unknown".

(** ** The feed handler *)

(** A field of a JSON object that holds a string when it holds anything:
    it is absent ([undefined] when read), [null], or a string. *)
Inductive Field : Type :=
  | Absent
  | Null
  | Str (s : string).

(** [v || d]. *)
Definition fieldOr (v : Field) (d : string) : string :=
  match v with
  | Str (String c s) => String c s
  | _ => d
  end.

(** A value in a template literal: [undefined] prints as "undefined" and
    [null] as "null". *)
Definition templ (v : Field) : string :=
  match v with
  | Absent => "undefined"
  | Null => "null"
  | Str s => s
  end.

(** A frame of the feed after [JSON.parse], with the fields the handler
    reads.  [kind], [operation] and [collection] are compared with [===]
    and [record.text] and [time_us] are tested for truthiness before they
    are used, so for them [None] stands for an absent field and for [null]
    alike; [did] and [rkey] are printed into the uri, where the two differ.
    [time_us] is an integer. *)
Record Commit : Type := mkCommit {
  operation : option string;
  collection : option string;
  recordText : option string;
  rkey : Field
}.

Record Message : Type := mkMessage {
  kind : option string;
  commit : option Commit;
  did : Field;
  time_us : option Z
}.

(** The time values a [Date] holds; [toISOString] throws on the others. *)
Definition validTime (ms : Z) : bool :=
  (-8640000000000000 <=? ms)%Z && (ms <=? 8640000000000000)%Z.

Definition isCreatePost (m : Message) : option Commit :=
  match commit m with
  | Some cm =>
      if bool_decide (kind m = Some "commit") &&
         bool_decide (operation cm = Some "create") &&
         bool_decide (collection cm = Some "app.bsky.feed.post")
      then Some cm else None
  | None => None
  end.

(** The integers a double holds exactly, one after the other: up to 2^53
    in absolute value. *)
Definition safeInteger (t : Z) : bool :=
  (-9007199254740992 <=? t)%Z && (t <=? 9007199254740992)%Z.

(** The frames whose [time_us], when there is one, is such an integer. *)
Definition safeTime (frame : option Message) : bool :=
  match frame with
  | Some m =>
      match time_us m with
      | Some t => safeInteger t
      | None => true
      end
  | None => true
  end.

(** The time the post is stamped with: [message.time_us], when truthy,
    in milliseconds, and the clock otherwise.  The code computes
    [parseInt(time_us) / 1000] in double precision and [Date] cuts the
    quotient to whole milliseconds; for a [safeInteger] that is the
    quotient of the integers, rounded towards zero.  (Beyond 2^53 the
    double quotient can be a millisecond off, and from 10^21 on [parseInt]
    reads the exponent form of the number: [messageTime] is not the code's
    value there.) *)
Definition messageTime (m : Message) (now : Z) : Z :=
  match time_us m with
  | Some t => if bool_decide (t = 0%Z) then now else Z.quot t 1000
  | None => now
  end.

(** [ws.onmessage]; [frame] is [None] for data that is not a string or
    does not parse, and an exception thrown before [addPost] is called
    (an invalid date) is caught and ends the handler. *)
Definition onMessage `{Host} (frame : option Message) (now : Z) (st : State) : State :=
  match frame with
  | Some m =>
      match isCreatePost m with
      | Some cm =>
          if truthy (recordText cm) then
            if validTime (messageTime m now) then
              addPost
                (Post.mk (fieldOr (did m) "unknown")
                   (orElse (recordText cm) "")
                   (toISOString (messageTime m now))
                   ("at://" ++ templ (did m) ++ "/app.bsky.feed.post/" ++ templ (rkey cm)))
                st
            else st
          else st
      | None => st
      end
  | None => st
  end.

(** The streams that are open. *)
Definition liveStreams (st : State) : list nat :=
  List.filter (fun c => match streams st !! c with
                        | Some cn => c_open cn
                        | None => false
                        end) (seq 0 (length (streams st))).

(** The frames of the feed handled one after the other, each with the
    clock reading at its arrival. *)
Definition feed `{Host} (frames : list (option Message * Z)) (st : State) : State :=
  fold_left (fun s fr => onMessage (fst fr) (snd fr) s) frames st.


(** A create message of the feed, and one that deletes. *)
Definition createHello : Message :=
  mkMessage (Some "commit")
    (Some (mkCommit (Some "create") (Some "app.bsky.feed.post") (Some "hello") (Str "3k")))
    (Str "did:plc:x") (Some 1725911162329308%Z).
Definition deleteHello : Message :=
  mkMessage (Some "commit")
    (Some (mkCommit (Some "delete") (Some "app.bsky.feed.post") None (Str "3k")))
    (Str "did:plc:x") (Some 1725911162999999%Z).
(** A create message whose [did] is [null] and whose [rkey] is missing. *)
Definition createAnonymous : Message :=
  mkMessage (Some "commit")
    (Some (mkCommit (Some "create") (Some "app.bsky.feed.post") (Some "hello") Absent))
    Null None.

(** [c.repeat(n)]. *)
Fixpoint repeatChar (n : nat) (c : ascii) : string :=
  match n with
  | O => EmptyString
  | S n' => String c (repeatChar n' c)
  end.

(** A string in which U+0000 does not occur. *)
Definition nulFree (s : string) : bool := negb (occurs "000"%char s).

(** * Properties *)

(** ** The model at work *)

Example like_ex1 : textLike "hello" "say Hello world" = true.
Proof. reflexivity. Qed.
Example like_ex2 : textLike "a_c" "xxabcxx" = true.
Proof. reflexivity. Qed.
Example like_ex3 : textLike "abd" "xxabcxx" = false.
Proof. reflexivity. Qed.
Example isoString_ex : isoString 1000 = "1970-01-01T00:00:01.000Z".
Proof. reflexivity. Qed.
Example isoString_ex2 : isoString 1730554321987 = "2024-11-02T13:32:01.987Z".
Proof. reflexivity. Qed.
Example isoTime_ex : isoTime "2024-11-02T13:32:01.987Z" = 1730554321987.
Proof. reflexivity. Qed.

(** ** Strings and LIKE *)

Lemma anySuffix_ext (k1 k2 : string -> bool) (s : string) :
  (forall x, k1 x = k2 x) -> anySuffix k1 s = anySuffix k2 s.
Proof.
  intros Hk. induction s as [|c s IH]; simpl; rewrite Hk; [reflexivity|].
  now rewrite IH.
Qed.

Lemma anySuffix_true (k : string -> bool) (s : string) :
  anySuffix k s = true <-> exists pre s', s = pre ++ s' /\ k s' = true.
Proof.
  split.
  - induction s as [|c s IH]; simpl; intros Hs.
    + exists "", "". split; [reflexivity|].
      now destruct (k ""); simpl in Hs.
    + apply orb_true_iff in Hs as [Hs|Hs].
      * now exists "", (String c s).
      * destruct (IH Hs) as (pre & s' & -> & Hk).
        now exists (String c pre), s'.
  - intros (pre & s' & -> & Hk). induction pre as [|c pre IH]; simpl.
    + destruct s'; simpl; rewrite Hk; reflexivity.
    + rewrite IH. apply orb_true_r.
Qed.

Lemma likeMatch_percent (s : string) : likeMatch "%" s = true.
Proof.
  simpl. induction s as [|c s IH]; simpl; [reflexivity | exact IH].
Qed.

Lemma likeMatch_prefix (f s : string) :
  noWildcard f = true -> likeMatch (f ++ "%") s = startsWithNoCase f s.
Proof.
  revert s. induction f as [|a f IH]; intros s Hf.
  - rewrite likeMatch_percent. now destruct s.
  - simpl in Hf. apply andb_true_iff in Hf as [Hf Hf'].
    apply andb_true_iff in Hf as [Hp Hu].
    apply negb_true_iff in Hp, Hu.
    change (String a f ++ "%") with (String a (f ++ "%")).
    cbn [likeMatch startsWithNoCase]. rewrite Hp.
    destruct s as [|b s]; [reflexivity|].
    rewrite Hu, IH by assumption. reflexivity.
Qed.

Lemma occurs_app (c : ascii) (a b : string) :
  occurs c (a ++ b) = occurs c a || occurs c b.
Proof.
  induction a as [|x a IH]; [reflexivity|].
  change (String x a ++ b) with (String x (a ++ b)). cbn [occurs].
  now rewrite IH, orb_assoc.
Qed.

Lemma cstring_nulFree (s : string) : nulFree s = true -> cstring s = s.
Proof.
  unfold nulFree. induction s as [|c s IH]; [reflexivity|]. cbn [occurs cstring].
  intros Hs. apply negb_true_iff, orb_false_iff in Hs as [Hc Hs]. rewrite Hc.
  rewrite IH; [reflexivity|]. now rewrite Hs.
Qed.

Lemma string_app_length (a b : string) :
  String.length (a ++ b) = (String.length a + String.length b)%nat.
Proof. induction a as [|x a IH]; simpl; [reflexivity | now rewrite IH]. Qed.

(** LIKE refuses the filters of 49,999 characters and more. *)
Lemma likeTooComplex_length (f : string) :
  likeTooComplex f = true <-> (49999 <= Z.of_nat (String.length f))%Z.
Proof.
  unfold likeTooComplex, LIKE_PATTERN_LIMIT.
  change ("%" ++ f ++ "%") with (String "%"%char (f ++ "%")).
  cbn [String.length]. rewrite string_app_length. cbn [String.length].
  rewrite andb_true_iff, Z.ltb_lt. split.
  - intros [_ Hlen]. lia.
  - intros Hlen. split; [|lia]. destruct f; [simpl in Hlen; lia | reflexivity].
Qed.

(** A filter without U+0000 is bound as it is. *)
Lemma cstring_pattern (f : string) :
  nulFree f = true -> cstring ("%" ++ f ++ "%") = String "%"%char (f ++ "%").
Proof.
  intros Hf. apply cstring_nulFree. unfold nulFree in *.
  change ("%" ++ f ++ "%") with (String "%"%char (f ++ "%")). cbn [occurs].
  rewrite occurs_app. apply negb_true_iff in Hf. now rewrite Hf.
Qed.

(** On a filter without wildcards and without U+0000, [LIKE '%filter%'] is
    the substring test that ignores the case of ASCII letters, made on the
    text up to its first U+0000. *)
Lemma textLike_includesNoCase (f s : string) :
  noWildcard f = true -> nulFree f = true ->
  textLike f s = includesNoCase f (cstring s).
Proof.
  intros Hf Hn. unfold textLike, includesNoCase. rewrite cstring_pattern by assumption.
  cbn [likeMatch]. rewrite bool_decide_eq_true_2 by reflexivity.
  apply anySuffix_ext. intros x. now apply likeMatch_prefix.
Qed.

Lemma startsWithNoCase_true (f s : string) :
  startsWithNoCase f s = true <->
  exists m post, s = m ++ post /\ lowerCase m = lowerCase f.
Proof.
  revert s. induction f as [|a f IH]; intros s.
  - split; [intros _; now exists "", s | now destruct s].
  - destruct s as [|b s]; simpl.
    + split; [discriminate|]. intros (m & post & Hs & Hm).
      destruct m; simpl in *; discriminate.
    + rewrite andb_true_iff, IH. unfold eqNoCase. rewrite bool_decide_eq_true.
      split.
      * intros (Hab & m & post & -> & Hm). exists (String b m), post.
        simpl. split; [reflexivity|]. now rewrite Hm, Hab.
      * intros (m & post & Hs & Hm). destruct m as [|c m]; simpl in *; [discriminate|].
        injection Hs as -> ->. injection Hm as Hc Hm.
        split; [now symmetry|]. now exists m, post.
Qed.

Lemma includesNoCase_true (f s : string) :
  includesNoCase f s = true <->
  exists pre m post, s = pre ++ m ++ post /\ lowerCase m = lowerCase f.
Proof.
  unfold includesNoCase. rewrite anySuffix_true. split.
  - intros (pre & s' & -> & Hs). apply startsWithNoCase_true in Hs as (m & post & -> & Hm).
    now exists pre, m, post.
  - intros (pre & m & post & -> & Hm). exists pre, (m ++ post). split; [reflexivity|].
    apply startsWithNoCase_true. now exists m, post.
Qed.

(** ** Ordering *)

Lemma insertDesc_perm (r : Row.t) (l : list Row.t) :
  Permutation (insertDesc r l) (r :: l).
Proof.
  induction l as [|x l IH]; simpl; [reflexivity|].
  destruct (Row.timestamp r <? Row.timestamp x)%Z; [|reflexivity].
  rewrite IH. apply perm_swap.
Qed.

Lemma insertDesc_sorted (r : Row.t) (l : list Row.t) :
  StronglySorted newerFirst l -> StronglySorted newerFirst (insertDesc r l).
Proof.
  induction 1 as [|x l Hl IH Hx]; simpl.
  - repeat constructor.
  - destruct (Z.ltb_spec (Row.timestamp r) (Row.timestamp x)) as [Hlt|Hge].
    + constructor; [exact IH|].
      rewrite insertDesc_perm. constructor; [unfold newerFirst; lia | exact Hx].
    + constructor; [now constructor|].
      constructor; [exact Hge|].
      eapply Forall_impl; [exact Hx|]. unfold newerFirst. intros y Hy. simpl in Hy. lia.
Qed.

Lemma orderDesc_perm (rows : list Row.t) : Permutation (orderDesc rows) rows.
Proof.
  unfold orderDesc. transitivity (rev rows); [|symmetry; apply Permutation_rev].
  induction (rev rows) as [|r l IH]; simpl; [reflexivity|].
  now rewrite insertDesc_perm, IH.
Qed.

Lemma orderDesc_sorted (rows : list Row.t) : StronglySorted newerFirst (orderDesc rows).
Proof.
  unfold orderDesc. induction (rev rows) as [|r l IH]; simpl.
  - constructor.
  - now apply insertDesc_sorted.
Qed.

Lemma insertDesc_head (r : Row.t) (l : list Row.t) :
  Forall (newerFirst r) l -> insertDesc r l = r :: l.
Proof.
  destruct 1 as [|x l Hx _]; simpl; [reflexivity|].
  unfold newerFirst in Hx.
  destruct (Z.ltb_spec (Row.timestamp r) (Row.timestamp x)); [lia | reflexivity].
Qed.

Lemma filter_insertDesc (P : Row.t -> bool) (r : Row.t) (l : list Row.t) :
  StronglySorted newerFirst l ->
  List.filter P (insertDesc r l) =
  if P r then insertDesc r (List.filter P l) else List.filter P l.
Proof.
  induction 1 as [|x l Hl IH Hx]; simpl.
  - now destruct (P r).
  - destruct (Z.ltb_spec (Row.timestamp r) (Row.timestamp x)) as [Hlt|Hge]; simpl.
    + rewrite IH. destruct (P x), (P r); simpl; try reflexivity.
      now rewrite (proj2 (Z.ltb_lt _ _) Hlt).
    + destruct (P r); [|reflexivity].
      symmetry. apply insertDesc_head.
      assert (Hall : Forall (newerFirst r) (x :: l)).
      { constructor; [exact Hge|]. eapply Forall_impl; [exact Hx|].
        unfold newerFirst. intros y Hy. simpl in Hy. lia. }
      apply List.Forall_forall. intros y Hy.
      assert (Hy' : In y (x :: l)).
      { change (In y (List.filter P (x :: l))) in Hy. now apply filter_In in Hy. }
      clear Hy. revert y Hy'. now apply List.Forall_forall.
Qed.

(** Ordering and a WHERE clause commute: rows with equal timestamps keep
    their relative order. *)
Lemma orderDesc_filter (P : Row.t -> bool) (rows : list Row.t) :
  orderDesc (List.filter P rows) = List.filter P (orderDesc rows).
Proof.
  unfold orderDesc. rewrite <- List.filter_rev.
  assert (Hs : forall l, StronglySorted newerFirst (fold_right insertDesc [] l)).
  { induction l; simpl; [constructor | now apply insertDesc_sorted]. }
  induction (rev rows) as [|r l IH]; simpl; [reflexivity|].
  rewrite filter_insertDesc by apply Hs.
  destruct (P r); simpl; now rewrite IH.
Qed.

(** ** The table: inserts *)

Lemma hasUri_true (u : string) (rows : list Row.t) :
  hasUri u rows = true <-> In u (map Row.uri rows).
Proof.
  unfold hasUri. rewrite existsb_exists, in_map_iff.
  split; intros (r & H1 & H2); exists r.
  - now apply bool_decide_eq_true in H2.
  - split; [assumption | now apply bool_decide_eq_true].
Qed.

Lemma insertOrIgnore_In (x r : Row.t) (rows : list Row.t) :
  In r rows -> In r (insertOrIgnore x rows).
Proof.
  unfold insertOrIgnore. destruct (hasUri _ _); [trivial|].
  intros. apply in_or_app. now left.
Qed.

Lemma insertOrIgnore_NoDup (x : Row.t) (rows : list Row.t) :
  List.NoDup (map Row.uri rows) -> List.NoDup (map Row.uri (insertOrIgnore x rows)).
Proof.
  intros Hnd. unfold insertOrIgnore.
  destruct (hasUri (Row.uri x) rows) eqn:Hx; [assumption|].
  rewrite map_app. simpl. apply NoDup_ListNoDup, NoDup_app.
  split; [now apply NoDup_ListNoDup|]. split.
  - intros u Hu Hu'. apply list_elem_of_In in Hu. apply list_elem_of_singleton in Hu'.
    subst u. apply hasUri_true in Hu. congruence.
  - apply NoDup_singleton.
Qed.

Lemma insertMany_In `{Host} (posts : list Post.t) (rows : list Row.t) (r : Row.t) :
  In r rows -> In r (insertMany posts rows).
Proof.
  unfold insertMany. revert rows. induction posts as [|p posts IH]; intros rows Hr; simpl.
  - assumption.
  - apply IH. now apply insertOrIgnore_In.
Qed.

Lemma insertMany_NoDup `{Host} (posts : list Post.t) (rows : list Row.t) :
  List.NoDup (map Row.uri rows) -> List.NoDup (map Row.uri (insertMany posts rows)).
Proof.
  unfold insertMany. revert rows. induction posts as [|p posts IH]; intros rows Hr; simpl.
  - assumption.
  - apply IH. now apply insertOrIgnore_NoDup.
Qed.

Lemma filter_none {A} (f : A -> bool) (l : list A) :
  (forall y, In y l -> f y = false) -> List.filter f l = [].
Proof.
  induction l as [|x l IH]; simpl; intros Hf; [reflexivity|].
  rewrite (Hf x) by now left. apply IH. intros y Hy. apply Hf. now right.
Qed.

(** In a table with a primary key, the rows under a stored key are that
    one row. *)
Lemma filter_uri_unique (rows : list Row.t) (r : Row.t) :
  List.NoDup (map Row.uri rows) -> In r rows ->
  List.filter (fun x => bool_decide (Row.uri x = Row.uri r)) rows = [r].
Proof.
  induction rows as [|x rows IH]; simpl; intros Hnd Hr; [contradiction|].
  inversion Hnd as [|? ? Hx Hnd']; subst.
  destruct Hr as [->|Hr].
  - rewrite bool_decide_eq_true_2 by reflexivity. f_equal.
    apply filter_none. intros y Hy. apply bool_decide_eq_false.
    intros Heq. apply Hx. rewrite <- Heq. now apply in_map.
  - rewrite bool_decide_eq_false_2; [now apply IH|].
    intros Heq. apply Hx. rewrite Heq. now apply in_map.
Qed.

(** A batch of posts whose uris are all stored inserts nothing. *)
Lemma insertMany_unchanged `{Host} (rows : list Row.t) (posts : list Post.t) :
  Forall (fun p => In (Post.uri p) (map Row.uri rows)) posts ->
  insertMany posts rows = rows.
Proof.
  unfold insertMany. induction 1 as [|p posts Hp _ IH]; simpl; [reflexivity|].
  unfold insertOrIgnore at 2. simpl.
  now rewrite (proj2 (hasUri_true _ _) Hp).
Qed.

(** ** Queries *)

Lemma queryPosts_unfold `{Host} (f : string) (rows : list Row.t) :
  f <> "" ->
  queryPosts f rows =
  map rowPost
    (firstn QUERY_LIMIT (orderDesc (List.filter (fun r => textLike f (Row.text r)) rows))).
Proof. intros Hf. unfold queryPosts, selectPosts, whereLike. now destruct f. Qed.

Lemma queryPosts_empty_filter `{Host} (rows : list Row.t) :
  queryPosts "" rows = map rowPost (firstn QUERY_LIMIT (orderDesc rows)).
Proof. reflexivity. Qed.

(** C1 (as amended): for a non-empty filter in which no [%], no [_] and
    no U+0000 occurs and which LIKE accepts (fewer than 49,999 characters),
    [queryPosts] returns the posts of the rows whose text, read up to its
    first U+0000, contains the filter as a substring up to the case of
    ASCII letters: the rows that match, newest first, cut after the first
    100; and nothing when no row matches. *)
Theorem queryPosts_substring_nocase `{Host} (rows : list Row.t) (f : string) :
  f <> "" -> noWildcard f = true -> nulFree f = true -> likeTooComplex f = false ->
  exists l,
    Permutation l (List.filter (fun r => includesNoCase f (cstring (Row.text r))) rows) /\
    StronglySorted newerFirst l /\
    queryPosts f rows = map rowPost (firstn 100 l) /\
    ((forall r, In r rows -> includesNoCase f (cstring (Row.text r)) = false) ->
     queryPosts f rows = []) /\
    (forall r, In r rows -> nulFree (Row.text r) = true -> cstring (Row.text r) = Row.text r).
Proof.
  intros Hne Hw Hn _.
  assert (Hext : List.filter (fun r => textLike f (Row.text r)) rows =
                 List.filter (fun r => includesNoCase f (cstring (Row.text r))) rows).
  { apply filter_ext. intros r. now apply textLike_includesNoCase. }
  exists (orderDesc (List.filter (fun r => includesNoCase f (cstring (Row.text r))) rows)).
  split; [apply orderDesc_perm|]. split; [apply orderDesc_sorted|].
  rewrite queryPosts_unfold, Hext by assumption. split; [reflexivity|].
  split.
  - intros Hnone. now rewrite filter_none.
  - intros r _ Hr. now apply cstring_nulFree.
Qed.

Lemma queryPosts_substring_nocase_witness :
  exists l,
    Permutation l
      (List.filter (fun r => includesNoCase "hello" (cstring (Row.text r)))
         [Row.mk "u1" "a1" "Hello world" 1000; Row.mk "u2" "a2" "goodbye" 2000]) /\
    StronglySorted newerFirst l /\
    @queryPosts exampleHost "hello"
      [Row.mk "u1" "a1" "Hello world" 1000; Row.mk "u2" "a2" "goodbye" 2000] =
    map (@rowPost exampleHost) (firstn 100 l) /\
    ((forall r, In r [Row.mk "u1" "a1" "Hello world" 1000; Row.mk "u2" "a2" "goodbye" 2000] ->
                includesNoCase "hello" (cstring (Row.text r)) = false) ->
     @queryPosts exampleHost "hello"
       [Row.mk "u1" "a1" "Hello world" 1000; Row.mk "u2" "a2" "goodbye" 2000] = []) /\
    (forall r, In r [Row.mk "u1" "a1" "Hello world" 1000; Row.mk "u2" "a2" "goodbye" 2000] ->
               nulFree (Row.text r) = true -> cstring (Row.text r) = Row.text r).
Proof.
  apply (@queryPosts_substring_nocase exampleHost
           [Row.mk "u1" "a1" "Hello world" 1000; Row.mk "u2" "a2" "goodbye" 2000] "hello").
  - discriminate.
  - reflexivity.
  - reflexivity.
  - reflexivity.
Defined.

(** The match of [queryPosts] is not a case-sensitive substring test: the
    filter "hello" returns a post whose text "HELLO" does not contain it;
    and with a wildcard it is no substring test at all: the filter "a_c"
    returns a post whose text "abc" does not contain it in any case. *)
Lemma queryPosts_not_case_sensitive :
  (@queryPosts exampleHost "hello" [Row.mk "u1" "a1" "HELLO" 1000] =
     [Post.mk "a1" "HELLO" "1970-01-01T00:00:01.000Z" "u1"] /\
   includes "hello" "HELLO" = false) /\
  (@queryPosts exampleHost "a_c" [Row.mk "u1" "a1" "abc" 1000] =
     [Post.mk "a1" "abc" "1970-01-01T00:00:01.000Z" "u1"] /\
   includesNoCase "a_c" "abc" = false).
Proof. repeat split; reflexivity. Qed.

(** What follows a U+0000 is not searched: the text below holds "hidden"
    after one, and the filter "hidden" does not return it. *)
Example like_stops_at_nul :
  textLike "hidden" ("shown" ++ String "000"%char "hidden") = false /\
  textLike "shown" ("shown" ++ String "000"%char "hidden") = true /\
  includesNoCase "hidden" ("shown" ++ String "000"%char "hidden") = true.
Proof. repeat split. Qed.

(** ** The emitter *)

Lemma setStreams_same (s : State) : setStreams (streams s) s = s.
Proof. now destruct s. Qed.

Lemma setBatchBuffer_same (s : State) : setBatchBuffer (batchBuffer s) s = s.
Proof. now destruct s. Qed.

(** A listener changes nothing but the update queues. *)
Lemma queueUpdate_frame (c : nat) (s : State) :
  queueUpdate c s = setStreams (streams (queueUpdate c s)) s.
Proof. reflexivity. Qed.

Lemma filterListener_frame (c : nat) (tabId : string) (s : State) :
  filterListener c tabId s = setStreams (streams (filterListener c tabId s)) s.
Proof.
  unfold filterListener. destruct (streams s !! c) as [cn|]; [|now rewrite setStreams_same].
  destruct (bool_decide _); [reflexivity | now rewrite setStreams_same].
Qed.

Lemma fold_listeners_frame (g : nat -> State -> State) (l : list nat) (s0 : State) :
  (forall c s, g c s = setStreams (streams (g c s)) s) ->
  fold_left (fun s c => g c s) l s0 =
  setStreams (streams (fold_left (fun s c => g c s) l s0)) s0.
Proof.
  intros Hg. revert s0. induction l as [|c l IH]; intros s0; simpl.
  - now rewrite setStreams_same.
  - rewrite IH at 1. rewrite (Hg c s0) at 2. reflexivity.
Qed.

(** [emit] appends to the record of notifications and feeds update
    queues; every other part of the state is left as it was. *)
Lemma emit_frame (n : Notification) (st : State) :
  emit n st = setStreams (streams (emit n st)) (setEmitted (emitted st ++ [n]) st).
Proof.
  unfold emit. destruct n as [|tabId]; cbn zeta.
  - apply (fold_listeners_frame postsListener). intros. apply queueUpdate_frame.
  - apply (fold_listeners_frame (fun c s => filterListener c tabId s)).
    intros. apply filterListener_frame.
Qed.

Lemma emit_db n st : db (emit n st) = db st.
Proof. now rewrite emit_frame. Qed.
Lemma emit_batchBuffer n st : batchBuffer (emit n st) = batchBuffer st.
Proof. now rewrite emit_frame. Qed.
Lemma emit_emitted n st : emitted (emit n st) = (emitted st ++ [n])%list.
Proof. now rewrite emit_frame. Qed.
Lemma emit_tabs n st : tabs (emit n st) = tabs st.
Proof. now rewrite emit_frame. Qed.
Lemma emit_tabObjects n st : tabObjects (emit n st) = tabObjects st.
Proof. now rewrite emit_frame. Qed.
Lemma emit_sessions n st : sessions (emit n st) = sessions st.
Proof. now rewrite emit_frame. Qed.
Lemma emit_postsAddedListeners n st : postsAddedListeners (emit n st) = postsAddedListeners st.
Proof. now rewrite emit_frame. Qed.
Lemma emit_filterUpdatedListeners n st :
  filterUpdatedListeners (emit n st) = filterUpdatedListeners st.
Proof. now rewrite emit_frame. Qed.

(** ** Idempotent insert *)

Lemma flushPosts_db `{Host} (st : State) :
  db (flushPosts st) = insertMany (batchBuffer st) (db st).
Proof.
  unfold flushPosts. destruct (batchBuffer st) as [|p ps]; [reflexivity|].
  now rewrite emit_db.
Qed.

(** C2: a row that is in the table stays the one row under its uri through
    a flush, whatever the batch holds: a post of the batch with the same
    uri is skipped, and the row keeps the author, text and timestamp it was
    inserted with. *)
Theorem flushPosts_keeps_first `{Host} (st : State) (r : Row.t) :
  List.NoDup (map Row.uri (db st)) -> In r (db st) ->
  List.filter (fun x => bool_decide (Row.uri x = Row.uri r)) (db (flushPosts st)) = [r].
Proof.
  intros Hnd Hr. rewrite flushPosts_db. apply filter_uri_unique.
  - now apply insertMany_NoDup.
  - now apply insertMany_In.
Qed.

(** ** What a flush publishes *)

(** C3 (as amended): a flush publishes "posts.added" exactly when the
    batch buffer is not empty, once; this is so also when every post of
    the batch repeats a stored uri and the table stays as it was. *)
Theorem flushPosts_emitted `{Host} (st : State) :
  emitted (flushPosts st) =
    (emitted st ++ match batchBuffer st with [] => [] | _ :: _ => [PostsAdded] end)%list /\
  (Forall (fun p => In (Post.uri p) (map Row.uri (db st))) (batchBuffer st) ->
   db (flushPosts st) = db st).
Proof.
  split.
  - unfold flushPosts. destruct (batchBuffer st) as [|p ps].
    + now rewrite app_nil_r.
    + now rewrite emit_emitted.
  - intros Hdup. rewrite flushPosts_db. now apply insertMany_unchanged.
Qed.

Example scenario_stored :
  @run exampleHost [FeedPost E1; FeedPost E2; FlushTick; FeedPost E3] initial =
  setEmitted [PostsAdded] pendingE3.
Proof. reflexivity. Qed.

Example scenario_queries :
  let rows := db (@flushPosts exampleHost pendingE3) in
  rows = [rowE1; rowE2] /\
  @queryPosts exampleHost "" rows = [E2; E1] /\
  @queryPosts exampleHost "hello" rows = [E1] /\
  @queryPosts exampleHost "xyz" rows = [].
Proof. repeat split. Qed.

Lemma flushPosts_keeps_first_witness :
  List.filter (fun x => bool_decide (Row.uri x = Row.uri rowE1))
    (db (@flushPosts exampleHost pendingE3)) = [rowE1].
Proof.
  apply (@flushPosts_keeps_first exampleHost pendingE3 rowE1).
  - simpl. constructor; [simpl; intros [Hu|[]]; discriminate|].
    constructor; [intros []|constructor].
  - simpl. now left.
Defined.

(** A flush whose only post repeats a stored uri inserts no row and still
    publishes "posts.added". *)
Lemma flushPosts_publishes_on_duplicates :
  db (@flushPosts exampleHost pendingE3) = db pendingE3 /\
  emitted (@flushPosts exampleHost pendingE3) = [PostsAdded].
Proof. split; reflexivity. Qed.

(** ** The batch buffer *)

Lemma flushPosts_batchBuffer `{Host} (st : State) : batchBuffer (flushPosts st) = [].
Proof.
  unfold flushPosts. destruct (batchBuffer st) as [|p ps] eqn:Hb; [exact Hb|].
  now rewrite emit_batchBuffer.
Qed.







Lemma insertMany_app `{Host} (l1 l2 : list Post.t) (rows : list Row.t) :
  insertMany (l1 ++ l2) rows = insertMany l2 (insertMany l1 rows).
Proof. unfold insertMany. apply fold_left_app. Qed.

Lemma insertMany_uri_In `{Host} (posts : list Post.t) (rows : list Row.t) (u : string) :
  In u (map Row.uri rows) -> In u (map Row.uri (insertMany posts rows)).
Proof.
  intros Hu. apply in_map_iff in Hu as (r & <- & Hr).
  apply in_map. now apply insertMany_In.
Qed.

Lemma insertMany_has_uri `{Host} (posts : list Post.t) (rows : list Row.t) (p : Post.t) :
  In p posts -> In (Post.uri p) (map Row.uri (insertMany posts rows)).
Proof.
  revert rows. induction posts as [|q posts IH]; intros rows Hp; [contradiction|].
  change (insertMany (q :: posts) rows)
    with (insertMany posts (insertOrIgnore (postRow q) rows)).
  destruct Hp as [->|Hp]; [|now apply IH].
  apply insertMany_uri_In. unfold insertOrIgnore.
  destruct (hasUri (Row.uri (postRow p)) rows) eqn:Hh.
  - now apply hasUri_true in Hh.
  - rewrite map_app. apply in_or_app. right. now left.
Qed.





(** The scenario of the specification: 99 posts leave the table alone,
    the 100th has all 100 inserted at once. *)
Example batch_flush_scenario :
  db (@run exampleHost (map FeedPost (firstn 99 hundred)) initial) = [] /\
  batchBuffer (@run exampleHost (map FeedPost (firstn 99 hundred)) initial)
    = firstn 99 hundred /\
  db (@run exampleHost (map FeedPost hundred) initial) = map (@postRow exampleHost) hundred /\
  batchBuffer (@run exampleHost (map FeedPost hundred) initial) = [] /\
  emitted (@run exampleHost (map FeedPost hundred) initial) = [PostsAdded].
Proof. vm_compute. repeat split. Qed.

(** ** Retention *)

Lemma filter_comm {A} (P Q : A -> bool) (l : list A) :
  List.filter P (List.filter Q l) = List.filter Q (List.filter P l).
Proof.
  induction l as [|x l IH]; simpl; [reflexivity|].
  destruct (P x) eqn:HP, (Q x) eqn:HQ; simpl; rewrite ?HP, ?HQ, IH; reflexivity.
Qed.

Lemma In_firstn {A} (n : nat) (l : list A) (x : A) : In x (firstn n l) -> In x l.
Proof. intros Hx. rewrite <- (firstn_skipn n l). apply in_or_app. now left. Qed.

Lemma whereLike_deleteOlderThan (f : string) (cutoff : Z) (rows : list Row.t) :
  whereLike f (deleteOlderThan cutoff rows) = deleteOlderThan cutoff (whereLike f rows).
Proof.
  unfold whereLike, deleteOlderThan. destruct (truthy (Some f)); [|reflexivity].
  apply filter_comm.
Qed.

Lemma deleteOlderThan_In (cutoff : Z) (rows : list Row.t) (r : Row.t) :
  In r (deleteOlderThan cutoff rows) <-> In r rows /\ (cutoff <= Row.timestamp r)%Z.
Proof.
  unfold deleteOlderThan. rewrite filter_In, negb_true_iff, Z.ltb_ge. reflexivity.
Qed.

(** C6: eviction at time [now] removes from the table exactly the rows
    whose timestamp is strictly before [now - POST_RETENTION_MS] (one
    hour).  The rows that stay keep their order; a query after the eviction
    is the query before it with the evicted rows struck out, so no evicted
    row is returned and the others are returned as before; nothing else of
    the state changes. *)
Theorem cleanupOldPosts_evicts `{Host} (now : Z) (st : State) :
  POST_RETENTION_MS = 3600000%Z /\
  (forall r, In r (db (cleanupOldPosts now st)) <->
             In r (db st) /\ (now - POST_RETENTION_MS <= Row.timestamp r)%Z) /\
  db (cleanupOldPosts now st) =
    List.filter (fun r => (now - POST_RETENTION_MS <=? Row.timestamp r)%Z) (db st) /\
  (forall f, queryPosts f (db (cleanupOldPosts now st)) =
             map rowPost
               (firstn 100
                  (List.filter (fun r => (now - POST_RETENTION_MS <=? Row.timestamp r)%Z)
                     (orderDesc (whereLike f (db st)))))) /\
  (forall f p, In p (queryPosts f (db (cleanupOldPosts now st))) ->
               exists r, In r (db st) /\ (now - POST_RETENTION_MS <= Row.timestamp r)%Z /\
                         p = rowPost r) /\
  cleanupOldPosts now st = setDb (db (cleanupOldPosts now st)) st.
Proof.
  assert (Hkeep : forall rows,
             deleteOlderThan (now - POST_RETENTION_MS) rows =
             List.filter (fun r => (now - POST_RETENTION_MS <=? Row.timestamp r)%Z) rows).
  { intros rows. apply filter_ext. intros r. now rewrite Z.leb_antisym. }
  split; [reflexivity|]. split; [|split; [|split; [|split]]].
  - intros r. apply deleteOlderThan_In.
  - apply Hkeep.
  - intros f. unfold queryPosts, selectPosts. cbn [cleanupOldPosts db setDb].
    now rewrite whereLike_deleteOlderThan, Hkeep, orderDesc_filter.
  - intros f p Hp. unfold queryPosts in Hp. apply in_map_iff in Hp as (r & <- & Hr).
    exists r. unfold selectPosts in Hr. apply In_firstn in Hr.
    apply (Permutation_in _ (orderDesc_perm _)) in Hr.
    assert (Hin : In r (db (cleanupOldPosts now st))).
    { unfold whereLike in Hr. destruct (truthy (Some f)); [|exact Hr].
      now apply filter_In in Hr. }
    apply deleteOlderThan_In in Hin as [Hin Hts]. auto.
  - reflexivity.
Qed.

Example retention_scenario :
  let st := setDb [rowE1; rowE2; Row.mk "u3" "did:c" "fresh" 3601500] initial in
  @queryPosts exampleHost "" (db st) =
    [Post.mk "did:c" "fresh" "1970-01-01T01:00:01.500Z" "u3"; E2; E1] /\
  @queryPosts exampleHost "" (db (cleanupOldPosts 3602000 st)) =
    [Post.mk "did:c" "fresh" "1970-01-01T01:00:01.500Z" "u3"; E2].
Proof. split; reflexivity. Qed.

(** ** Streams under notifications *)

Lemma shape_buffered (cn : Conn) : shape (buffered cn) = shape cn.
Proof. unfold buffered, shape. destruct cn as [s t p []]; reflexivity. Qed.

Lemma map_shape_alter (c : nat) (l : list Conn) :
  map shape (alter buffered c l) = map shape l.
Proof.
  revert c. induction l as [|x l IH]; intros [|c]; simpl; try reflexivity.
  - now rewrite shape_buffered.
  - f_equal. apply IH.
Qed.

Lemma queueUpdate_shape (c : nat) (s : State) :
  map shape (streams (queueUpdate c s)) = map shape (streams s).
Proof. apply map_shape_alter. Qed.

Lemma filterListener_shape (c : nat) (A : string) (s : State) :
  map shape (streams (filterListener c A s)) = map shape (streams s).
Proof.
  unfold filterListener. destruct (streams s !! c); [|reflexivity].
  destruct (bool_decide _); [apply queueUpdate_shape | reflexivity].
Qed.

Lemma fold_listeners_shape (g : nat -> State -> State) (l : list nat) (s0 : State) :
  (forall c s, map shape (streams (g c s)) = map shape (streams s)) ->
  map shape (streams (fold_left (fun s c => g c s) l s0)) = map shape (streams s0).
Proof.
  intros Hg. revert s0. induction l as [|c l IH]; intros s0; simpl; [reflexivity|].
  now rewrite IH, Hg.
Qed.

(** A notification leaves every stream what it is; it can only add to
    what a stream has buffered. *)
Lemma emit_shape (n : Notification) (st : State) :
  map shape (streams (emit n st)) = map shape (streams st).
Proof.
  unfold emit. destruct n as [|A]; cbn zeta.
  - now rewrite (fold_listeners_shape postsListener) by (intros; apply queueUpdate_shape).
  - now rewrite (fold_listeners_shape (fun c s => filterListener c A s))
      by (intros; apply filterListener_shape).
Qed.

Lemma shape_lookup (xs ys : list Conn) (c : nat) (cn : Conn) :
  map shape xs = map shape ys -> xs !! c = Some cn ->
  exists cn', ys !! c = Some cn' /\ shape cn' = shape cn.
Proof.
  intros Hs Hc.
  assert (Hm : map shape ys !! c = Some (shape cn)).
  { rewrite <- Hs. change (map shape xs) with (shape <$> xs).
    now rewrite list_lookup_fmap, Hc. }
  change (map shape ys) with (shape <$> ys) in Hm. rewrite list_lookup_fmap in Hm.
  destruct (ys !! c) as [cn'|]; [|discriminate].
  exists cn'. split; [reflexivity|]. simpl in Hm. congruence.
Qed.

Lemma liveStream_shape (st st' : State) (c : nat) :
  map shape (streams st') = map shape (streams st) ->
  liveStream st' c <-> liveStream st c.
Proof.
  intros Hs. unfold liveStream. split; intros (cn & Hc & Ho).
  - destruct (shape_lookup _ _ _ _ Hs Hc) as (cn' & Hc' & Hsh).
    exists cn'. split; [assumption|]. unfold shape in Hsh. congruence.
  - destruct (shape_lookup _ _ _ _ (eq_sym Hs) Hc) as (cn' & Hc' & Hsh).
    exists cn'. split; [assumption|]. unfold shape in Hsh. congruence.
Qed.

Lemma queueUpdate_lookup_ne (c c' : nat) (s : State) :
  c <> c' -> streams (queueUpdate c' s) !! c = streams s !! c.
Proof. intros Hne. unfold queueUpdate. simpl. apply list_lookup_alter_ne. congruence. Qed.

Lemma queueUpdate_lookup (c : nat) (s : State) :
  streams (queueUpdate c s) !! c = buffered <$> streams s !! c.
Proof. unfold queueUpdate. simpl. apply list_lookup_alter_eq. Qed.



Lemma fold_filterListener_tabObjects (l : list nat) (A : string) (s : State) :
  tabObjects (fold_left (fun s c => filterListener c A s) l s) = tabObjects s.
Proof.
  rewrite (fold_listeners_frame (fun c s => filterListener c A s)); [reflexivity|].
  intros. apply filterListener_frame.
Qed.





(** ** The invariant *)

Lemma wf_initial : wf initial.
Proof.
  assert (Hnone : forall c, liveStream initial c -> False).
  { intros c (cn & Hc & _). simpl in Hc. now rewrite lookup_nil in Hc. }
  constructor; simpl.
  - intros tid ref Ht. now rewrite lookup_empty in Ht.
  - intros c cn Hc. now rewrite lookup_nil in Hc.
  - constructor.
  - constructor.
  - intros c. split; [intros Hc; now apply elem_of_nil in Hc | intros Hc; now apply Hnone in Hc].
  - intros c. split; [intros Hc; now apply elem_of_nil in Hc | intros Hc; now apply Hnone in Hc].
  - constructor.
  - unfold BATCH_SIZE. lia.
Qed.

Lemma wf_setSessions (x : gmap string Session.t) (st : State) :
  wf st -> wf (setSessions x st).
Proof. intros []; constructor; assumption. Qed.

Lemma wf_setEmitted (x : list Notification) (st : State) :
  wf st -> wf (setEmitted x st).
Proof. intros []; constructor; assumption. Qed.

Lemma wf_setDb (x : list Row.t) (st : State) :
  wf st -> List.NoDup (map Row.uri x) -> wf (setDb x st).
Proof. intros [] Hx; constructor; assumption. Qed.

Lemma wf_setBatchBuffer (x : list Post.t) (st : State) :
  wf st -> (length x < BATCH_SIZE)%nat -> wf (setBatchBuffer x st).
Proof. intros [] Hx; constructor; assumption. Qed.

Lemma wf_setStreams_shape (xs : list Conn) (st : State) :
  wf st -> map shape xs = map shape (streams st) -> wf (setStreams xs st).
Proof.
  intros Hwf Hs.
  assert (Hlive : forall c, liveStream (setStreams xs st) c <-> liveStream st c).
  { intros c. now apply liveStream_shape. }
  destruct Hwf as [Ht Hst Hn1 Hn2 Hl1 Hl2 Hdb Hb].
  constructor; try assumption.
  - intros c cn Hc. simpl in Hc.
    destruct (shape_lookup _ _ _ _ Hs Hc) as (cn' & Hc' & Hsh).
    apply Hst in Hc'. unfold shape in Hsh. simpl. congruence.
  - intros c. simpl. rewrite Hlive. apply Hl1.
  - intros c. simpl. rewrite Hlive. apply Hl2.
Qed.

Lemma wf_emit (n : Notification) (st : State) : wf st -> wf (emit n st).
Proof.
  intros Hwf. rewrite emit_frame.
  apply (wf_setStreams_shape (streams (emit n st)) (setEmitted (emitted st ++ [n]) st)).
  - now apply wf_setEmitted.
  - exact (emit_shape n st).
Qed.

Lemma wf_flushPosts `{Host} (st : State) :
  wf (setBatchBuffer [] st) -> wf (flushPosts st).
Proof.
  intros Hwf. unfold flushPosts. destruct (batchBuffer st) as [|p ps] eqn:Hb.
  - rewrite <- (setBatchBuffer_same st), Hb. exact Hwf.
  - apply wf_emit.
    change (wf (setDb (insertMany (p :: ps) (db st)) (setBatchBuffer [] st))).
    apply wf_setDb; [exact Hwf|].
    apply insertMany_NoDup. apply (wf_db _ Hwf).
Qed.

Lemma wf_addPost `{Host} (p : Post.t) (st : State) : wf st -> wf (addPost p st).
Proof.
  intros Hwf. unfold addPost. cbn [batchBuffer setBatchBuffer].
  destruct (Nat.leb_spec BATCH_SIZE (length (batchBuffer st ++ [p]))) as [Hle|Hgt].
  - apply wf_flushPosts.
    change (wf (setBatchBuffer [] st)). apply wf_setBatchBuffer; [assumption|].
    unfold BATCH_SIZE. simpl. lia.
  - now apply wf_setBatchBuffer.
Qed.

Lemma deleteOlderThan_NoDup (cutoff : Z) (rows : list Row.t) :
  List.NoDup (map Row.uri rows) -> List.NoDup (map Row.uri (deleteOlderThan cutoff rows)).
Proof.
  unfold deleteOlderThan. induction rows as [|x rows IH]; simpl; intros Hnd; [constructor|].
  inversion Hnd as [|? ? Hx Hnd']; subst.
  destruct (negb _); simpl; [|now apply IH].
  constructor; [|now apply IH].
  intros Hin. apply Hx. apply in_map_iff in Hin as (y & Hy & Hin).
  apply filter_In in Hin as [Hin _]. rewrite <- Hy. now apply in_map.
Qed.

Lemma wf_cleanupOldPosts (now : Z) (st : State) : wf st -> wf (cleanupOldPosts now st).
Proof.
  intros Hwf. unfold cleanupOldPosts. apply wf_setDb; [assumption|].
  apply deleteOlderThan_NoDup, (wf_db _ Hwf).
Qed.

Lemma getOrCreateSession_frame (sid : option string) (r : Draws) (st : State) :
  snd (getOrCreateSession sid r st) =
  setSessions (sessions (snd (getOrCreateSession sid r st))) st.
Proof.
  assert (Hsame : st = setSessions (sessions st) st) by now destruct st.
  unfold getOrCreateSession, newSession.
  destruct sid as [sid|]; [|reflexivity].
  destruct (truthy (Some sid)); [|reflexivity].
  destruct (sessions st !! sid); [exact Hsame | reflexivity].
Qed.

Lemma wf_getOrCreateSession (sid : option string) (r : Draws) (st : State) :
  wf st -> wf (snd (getOrCreateSession sid r st)).
Proof. intros Hwf. rewrite getOrCreateSession_frame. now apply wf_setSessions. Qed.

Lemma wf_newTab (tabId : option string) (sid : string) (r : Draws) (st : State) :
  wf st ->
  wf (snd (newTab tabId sid r st)) /\
  (fst (newTab tabId sid r st) < length (tabObjects (snd (newTab tabId sid r st))))%nat.
Proof.
  intros [Ht Hst Hn1 Hn2 Hl1 Hl2 Hdb Hb]. unfold newTab. simpl. split.
  - constructor; simpl; try assumption.
    + intros tid ref Hlk. apply lookup_insert_Some in Hlk as [[<- <-]|[Hne Hlk]].
      * eexists. split; [apply list_lookup_middle; reflexivity | reflexivity].
      * destruct (Ht _ _ Hlk) as (tab & Htab & Hid).
        exists tab. split; [|assumption]. now apply lookup_app_l_Some.
    + intros c cn Hc. apply Hst in Hc. rewrite length_app. lia.
  - rewrite length_app. simpl. lia.
Qed.

Lemma getOrCreateTab_cases (tabId : option string) (sid : string) (r : Draws) (st : State) :
  (exists tid ref, tabId = Some tid /\ tid <> "" /\ tabs st !! tid = Some ref /\
                   getOrCreateTab tabId sid r st = (ref, st)) \/
  ((forall tid, tabId = Some tid -> tid <> "" -> tabs st !! tid = None) /\
   getOrCreateTab tabId sid r st = newTab tabId sid r st).
Proof.
  unfold getOrCreateTab. destruct tabId as [tid|]; [|right; split; [discriminate|reflexivity]].
  destruct tid as [|a tid]; [right; split; [|reflexivity]; intros ? [= <-]; congruence|].
  cbn [truthy]. destruct (tabs st !! String a tid) as [ref|] eqn:Hlk.
  - left. exists (String a tid), ref. repeat split; [discriminate | assumption].
  - right. split; [|reflexivity]. intros ? [= <-] _. assumption.
Qed.

Lemma wf_getOrCreateTab (tabId : option string) (sid : string) (r : Draws) (st : State) :
  wf st ->
  wf (snd (getOrCreateTab tabId sid r st)) /\
  (fst (getOrCreateTab tabId sid r st) <
   length (tabObjects (snd (getOrCreateTab tabId sid r st))))%nat.
Proof.
  intros Hwf.
  destruct (getOrCreateTab_cases tabId sid r st) as [(tid & ref & _ & _ & Hlk & ->)|[_ ->]].
  - simpl. split; [assumption|].
    destruct (wf_tabs _ Hwf _ _ Hlk) as (tab & Htab & _). now apply lookup_lt_Some in Htab.
  - now apply wf_newTab.
Qed.

Lemma liveStream_new (st : State) (cn : Conn) (c : nat) :
  c_open cn = true ->
  liveStream (setStreams (streams st ++ [cn]) st) c <->
  liveStream st c \/ c = length (streams st).
Proof.
  intros Hopen. unfold liveStream. simpl. split.
  - intros (cn' & Hc & Ho). apply lookup_app_Some in Hc as [Hc|[Hle Hc]].
    + left. now exists cn'.
    + right. apply list_lookup_singleton_Some in Hc as [Hc _]. lia.
  - intros [(cn' & Hc & Ho)| ->].
    + exists cn'. split; [now apply lookup_app_l_Some | assumption].
    + exists cn. split; [now apply list_lookup_middle | assumption].
Qed.

Lemma liveStream_lt (st : State) (c : nat) :
  liveStream st c -> (c < length (streams st))%nat.
Proof. intros (cn & Hc & _). now apply lookup_lt_Some in Hc. Qed.

Lemma wf_getLive (sid tid : option string) (r : Draws) (st : State) :
  wf st -> wf (snd (getLive sid tid r st)).
Proof.
  intros Hwf. unfold getLive.
  pose proof (wf_getOrCreateSession sid r st Hwf) as Hwf1.
  destruct (getOrCreateSession sid r st) as [session s1]. simpl in Hwf1.
  pose proof (wf_getOrCreateTab (signalTabId tid) (Session.id session) r s1 Hwf1) as [Hwf2 Href].
  destruct (getOrCreateTab (signalTabId tid) (Session.id session) r s1) as [ref s2].
  simpl in Hwf2, Href. simpl.
  set (cn := mkConn session ref 0 true).
  assert (Hlive : forall c, liveStream (setStreams (streams s2 ++ [cn]) s2) c <->
                            liveStream s2 c \/ c = length (streams s2)).
  { intros c. now apply liveStream_new. }
  destruct Hwf2 as [Ht Hst Hn1 Hn2 Hl1 Hl2 Hdb Hb].
  constructor; simpl; try assumption.
  - intros c cn' Hc. apply lookup_app_Some in Hc as [Hc|[_ Hc]].
    + now apply Hst in Hc.
    + apply list_lookup_singleton_Some in Hc as [_ <-]. exact Href.
  - apply NoDup_app. split; [assumption|]. split; [|apply NoDup_singleton].
    intros c Hc ->%list_elem_of_singleton. apply Hl1, liveStream_lt in Hc. lia.
  - apply NoDup_app. split; [assumption|]. split; [|apply NoDup_singleton].
    intros c Hc ->%list_elem_of_singleton. apply Hl2, liveStream_lt in Hc. lia.
  - intros c. rewrite elem_of_app, list_elem_of_singleton, Hl1. symmetry. apply Hlive.
  - intros c. rewrite elem_of_app, list_elem_of_singleton, Hl2. symmetry. apply Hlive.
Qed.

Lemma wf_getPage `{Host} (sid : option string) (r : Draws) (st : State) :
  wf st -> wf (snd (getPage sid r st)).
Proof.
  intros Hwf. unfold getPage.
  pose proof (wf_getOrCreateSession sid r st Hwf) as Hwf1.
  now destruct (getOrCreateSession sid r st) as [session s1].
Qed.

Lemma wf_alter_filter (f : string) (ref : nat) (st : State) :
  wf st -> wf (setTabObjects (alter (Tab.setFilter f) ref (tabObjects st)) st).
Proof.
  intros [Ht Hst Hn1 Hn2 Hl1 Hl2 Hdb Hb]. constructor; simpl; try assumption.
  - intros tid ref' Hlk. destruct (Ht _ _ Hlk) as (tab & Htab & Hid).
    rewrite list_lookup_alter. destruct (decide (ref = ref')) as [->|Hne].
    + rewrite Htab. simpl. eexists. split; [reflexivity | exact Hid].
    + now exists tab.
  - intros c cn Hc. rewrite length_alter. now apply Hst in Hc.
Qed.

Lemma wf_postFilter (tid f : option string) (st : State) :
  wf st -> wf (snd (postFilter tid f st)).
Proof.
  intros Hwf. unfold postFilter. destruct tid as [tid|]; [|assumption].
  destruct (truthy (Some tid)); [|assumption].
  destruct (tabs st !! tid) as [ref|]; [|assumption].
  cbn [snd]. apply wf_emit. now apply wf_alter_filter.
Qed.

Lemma elem_of_rev (x : nat) (l : list nat) : x ∈ rev l <-> x ∈ l.
Proof. rewrite !list_elem_of_In. symmetry. apply in_rev. Qed.

Lemma NoDup_rev (l : list nat) : NoDup l -> NoDup (rev l).
Proof. rewrite !NoDup_ListNoDup. apply List.NoDup_rev. Qed.

Lemma removeFirst_elem (c x : nat) (l : list nat) :
  NoDup l -> x ∈ removeFirst c l <-> x ∈ l /\ x <> c.
Proof.
  induction 1 as [|y l Hy Hnd IH]; simpl.
  - split; [intros Hx; now apply elem_of_nil in Hx | intros [Hx _]; now apply elem_of_nil in Hx].
  - case_bool_decide as Hyc.
    + subst y. rewrite elem_of_cons. split.
      * intros Hx. split; [now right|]. intros ->. contradiction.
      * intros [[->|Hx] Hne]; [contradiction | assumption].
    + rewrite !elem_of_cons, IH. split.
      * intros [->|[Hx Hne]]; [split; [now left | assumption] | split; [now right | assumption]].
      * intros [[->|Hx] Hne]; [now left | right; now split].
Qed.

Lemma removeFirst_NoDup (c : nat) (l : list nat) : NoDup l -> NoDup (removeFirst c l).
Proof.
  induction 1 as [|y l Hy Hnd IH]; simpl; [constructor|].
  case_bool_decide; [assumption|].
  constructor; [|assumption]. rewrite removeFirst_elem by assumption. tauto.
Qed.

(** After [events.off], a listener that was registered once is gone and
    the others are still there. *)
Lemma off_elem (c x : nat) (l : list nat) :
  NoDup l -> x ∈ off c l <-> x ∈ l /\ x <> c.
Proof.
  intros Hnd. unfold off.
  rewrite elem_of_rev, removeFirst_elem by now apply NoDup_rev.
  now rewrite elem_of_rev.
Qed.

Lemma off_NoDup (c : nat) (l : list nat) : NoDup l -> NoDup (off c l).
Proof. intros Hnd. unfold off. now apply NoDup_rev, removeFirst_NoDup, NoDup_rev. Qed.

Lemma live_insert_closed (l : list Conn) (c c' : nat) (cn0 : Conn) :
  (c < length l)%nat -> c_open cn0 = false ->
  (exists cn, <[c:=cn0]> l !! c' = Some cn /\ c_open cn = true) <->
  (exists cn, l !! c' = Some cn /\ c_open cn = true) /\ c' <> c.
Proof.
  intros Hlt Hclosed. split.
  - intros (cn & Hc & Ho). apply list_lookup_insert_Some in Hc as [(-> & <- & _)|[Hne Hc]].
    + congruence.
    + split; [now exists cn | congruence].
  - intros [(cn & Hc & Ho) Hne]. exists cn. split; [|assumption].
    rewrite list_lookup_insert_ne by congruence. assumption.
Qed.

Lemma wf_abort (c : nat) (st : State) : wf st -> wf (abort c st).
Proof.
  intros Hwf. unfold abort.
  destruct (streams st !! c) as [cn|] eqn:Hc; [|assumption].
  destruct (c_open cn) eqn:Ho; [|assumption].
  pose proof (lookup_lt_Some _ _ _ Hc) as Hlt.
  destruct Hwf as [Ht Hst Hn1 Hn2 Hl1 Hl2 Hdb Hb].
  constructor; simpl; try assumption.
  - intros tid ref Hlk. apply lookup_delete_Some in Hlk as [_ Hlk]. now apply Ht.
  - intros c' cn' Hc'. apply list_lookup_insert_Some in Hc' as [(-> & <- & _)|[Hne Hc']].
    + simpl. now apply Hst in Hc.
    + now apply Hst in Hc'.
  - now apply off_NoDup.
  - now apply off_NoDup.
  - intros c'. rewrite off_elem by assumption. rewrite Hl1.
    unfold liveStream. simpl. symmetry. now apply live_insert_closed.
  - intros c'. rewrite off_elem by assumption. rewrite Hl2.
    unfold liveStream. simpl. symmetry. now apply live_insert_closed.
Qed.

Lemma map_shape_insert (l : list Conn) (c : nat) (cn x : Conn) :
  l !! c = Some cn -> shape x = shape cn -> map shape (<[c:=x]> l) = map shape l.
Proof.
  intros Hc Hs. change (shape <$> <[c:=x]> l = shape <$> l).
  rewrite list_fmap_insert, Hs. apply list_insert_id.
  now rewrite list_lookup_fmap, Hc.
Qed.

(** A filter within the limit of LIKE never makes [sendUpdate] throw. *)
Lemma likeTooComplex_effectiveFilter (tab : Tab.t) :
  likeTooComplex (Tab.filter tab) = false -> likeTooComplex (effectiveFilter tab) = false.
Proof.
  intros Hf. unfold effectiveFilter.
  destruct (MIN_FILTER_LENGTH <=? String.length (Tab.filter tab))%nat; [exact Hf | reflexivity].
Qed.

Lemma sendUpdateThrows_bounded (tab : Tab.t) (st : State) :
  likeTooComplex (Tab.filter tab) = false -> sendUpdateThrows tab st = false.
Proof.
  intros Hf. unfold sendUpdateThrows. now rewrite likeTooComplex_effectiveFilter.
Qed.

Lemma tabsBounded_lookup (st : State) (ref : nat) :
  tabsBounded st -> likeTooComplex (Tab.filter (tabObjects st !!! ref)) = false.
Proof.
  intros Hb. rewrite list_lookup_total_alt.
  destruct (tabObjects st !! ref) as [tab|] eqn:Hr; [|reflexivity].
  unfold tabsBounded in Hb. rewrite Forall_lookup in Hb. exact (Hb _ _ Hr).
Qed.

(** A turn of the loop in which [sendUpdate] returns: one buffered update
    is gone, and the stream is otherwise what it was. *)
Lemma update_returns `{Host} (c : nat) (st : State) (cn : Conn) (n : nat) :
  streams st !! c = Some cn -> c_pending cn = S n ->
  sendUpdateThrows (tabObjects st !!! c_tab cn) st = false ->
  update c st =
  (SsePatch c (patchData (sendUpdate (c_session cn) (tabObjects st !!! c_tab cn) st)),
   setStreams (<[c := mkConn (c_session cn) (c_tab cn) n (c_open cn)]> (streams st)) st).
Proof. intros Hc Hp Ht. unfold update. now rewrite Hc, Hp, Ht. Qed.

(** A turn of the loop changes nothing but the streams. *)
Lemma update_frame `{Host} (c : nat) (st : State) :
  snd (update c st) = setStreams (streams (snd (update c st))) st.
Proof.
  unfold update. destruct (streams st !! c) as [cn|]; [|now rewrite setStreams_same].
  destruct (c_pending cn) as [|n]; [now rewrite setStreams_same|].
  now destruct (sendUpdateThrows _ _).
Qed.

Lemma wf_update `{Host} (c : nat) (st : State) :
  wf st -> tabsBounded st -> wf (snd (update c st)).
Proof.
  intros Hwf Hb. unfold update.
  destruct (streams st !! c) as [cn|] eqn:Hc; [|assumption].
  destruct (c_pending cn) as [|n]; [assumption|].
  rewrite sendUpdateThrows_bounded by now apply tabsBounded_lookup.
  cbn [snd]. apply wf_setStreams_shape; [assumption|].
  now apply (map_shape_insert _ _ cn).
Qed.

Lemma flushPosts_tabObjects `{Host} (st : State) : tabObjects (flushPosts st) = tabObjects st.
Proof.
  unfold flushPosts. destruct (batchBuffer st); [reflexivity|]. now rewrite emit_tabObjects.
Qed.

Lemma addPost_tabObjects `{Host} (p : Post.t) (st : State) :
  tabObjects (addPost p st) = tabObjects st.
Proof.
  unfold addPost. destruct (_ <=? _)%nat; [|reflexivity]. now rewrite flushPosts_tabObjects.
Qed.

(** With filters within the limit of LIKE coming in, the tab objects hold
    such filters only. *)
Lemma tabsBounded_step `{Host} (e : Event) (st : State) :
  tabsBounded st -> filterWithinLimit e = true -> tabsBounded (snd (step e st)).
Proof.
  unfold tabsBounded. intros Hb He. destruct e; cbn [step snd].
  - unfold getPage. pose proof (getOrCreateSession_frame cookieSessionId r st) as Hs.
    destruct (getOrCreateSession cookieSessionId r st) as [session s1]. cbn [snd] in *.
    now rewrite Hs.
  - unfold getLive. pose proof (getOrCreateSession_frame sessionId r st) as Hs.
    destruct (getOrCreateSession sessionId r st) as [session s1]. cbn [snd] in Hs.
    assert (Hb1 : Forall (fun tab => likeTooComplex (Tab.filter tab) = false) (tabObjects s1))
      by now rewrite Hs.
    destruct (getOrCreateTab_cases (signalTabId tabId) (Session.id session) r s1)
      as [(tid & ref & _ & _ & _ & ->)|[_ ->]]; [exact Hb1|].
    unfold newTab. cbn [snd tabObjects setStreams setTabs setTabObjects
                        setPostsAddedListeners setFilterUpdatedListeners].
    apply Forall_app. split; [exact Hb1|]. now constructor.
  - unfold postFilter. destruct tabId as [tid|]; [|assumption].
    destruct (truthy (Some tid)); [|assumption].
    destruct (tabs st !! tid) as [ref|]; [|assumption].
    cbn [snd]. rewrite emit_tabObjects. cbn [tabObjects setTabObjects].
    apply Forall_alter; [assumption|]. intros tab _ _.
    cbn [filterWithinLimit] in He. apply negb_true_iff in He. exact He.
  - unfold abort. destruct (streams st !! c) as [cn|]; [|assumption].
    now destruct (c_open cn).
  - now rewrite update_frame.
  - now rewrite addPost_tabObjects.
  - now rewrite flushPosts_tabObjects.
  - assumption.
Qed.

(** Every callback keeps the invariant, as long as [sendUpdate] returns. *)
Lemma wf_step `{Host} (e : Event) (st : State) :
  wf st -> tabsBounded st -> wf (snd (step e st)).
Proof.
  intros Hwf Hb. destruct e; cbn [step snd].
  - now apply wf_getPage.
  - now apply wf_getLive.
  - now apply wf_postFilter.
  - now apply wf_abort.
  - now apply wf_update.
  - now apply wf_addPost.
  - apply wf_flushPosts.
    rewrite <- (setBatchBuffer_same st) in Hwf.
    destruct Hwf; constructor; try assumption. unfold BATCH_SIZE. simpl. lia.
  - now apply wf_cleanupOldPosts.
Qed.

Lemma wf_run `{Host} (es : list Event) (st : State) :
  wf st -> tabsBounded st -> forallb filterWithinLimit es = true ->
  wf (run es st) /\ tabsBounded (run es st).
Proof.
  revert st. induction es as [|e es IH]; intros st Hwf Hb Hes; [now split|].
  cbn [forallb] in Hes. apply andb_true_iff in Hes as [He Hes].
  apply (IH (snd (step e st))); [now apply wf_step | now apply tabsBounded_step | assumption].
Qed.

(** The invariant holds of every state the server reaches while the
    filters it is sent are within the limit of LIKE. *)
Lemma wf_reachable `{Host} (es : list Event) :
  forallb filterWithinLimit es = true -> wf (run es initial).
Proof.
  intros Hes. apply wf_run; [apply wf_initial | constructor | assumption].
Qed.

(** The store side of the invariant is kept by every callback, also by a
    turn of the loop in which [sendUpdate] throws. *)
Lemma store_step `{Host} (e : Event) (st : State) :
  (List.NoDup (map Row.uri (db st)) /\
   (length (batchBuffer st) < BATCH_SIZE)%nat /\
   (forall tid ref, tabs st !! tid = Some ref ->
      exists tab, tabObjects st !! ref = Some tab /\ Tab.id tab = tid)) ->
  List.NoDup (map Row.uri (db (snd (step e st)))) /\
  (length (batchBuffer (snd (step e st))) < BATCH_SIZE)%nat /\
  (forall tid ref, tabs (snd (step e st)) !! tid = Some ref ->
     exists tab, tabObjects (snd (step e st)) !! ref = Some tab /\ Tab.id tab = tid).
Proof.
  intros (Hdb & Hbuf & Ht).
  assert (Hflush : forall s, List.NoDup (map Row.uri (db s)) ->
            (forall tid ref, tabs s !! tid = Some ref ->
               exists tab, tabObjects s !! ref = Some tab /\ Tab.id tab = tid) ->
            List.NoDup (map Row.uri (db (flushPosts s))) /\
            (length (batchBuffer (flushPosts s)) < BATCH_SIZE)%nat /\
            (forall tid ref, tabs (flushPosts s) !! tid = Some ref ->
               exists tab, tabObjects (flushPosts s) !! ref = Some tab /\ Tab.id tab = tid)).
  { intros s Hd Hts. rewrite flushPosts_db, flushPosts_batchBuffer, flushPosts_tabObjects.
    split; [now apply insertMany_NoDup|]. split; [unfold BATCH_SIZE; simpl; lia|].
    intros tid ref Hlk. apply Hts. revert Hlk. unfold flushPosts.
    destruct (batchBuffer s); [trivial|]. now rewrite emit_tabs. }
  destruct e; cbn [step snd].
  - unfold getPage. pose proof (getOrCreateSession_frame cookieSessionId r st) as Hs.
    destruct (getOrCreateSession cookieSessionId r st) as [session s1]. cbn [snd] in *.
    rewrite Hs. auto.
  - unfold getLive. pose proof (getOrCreateSession_frame sessionId r st) as Hs.
    destruct (getOrCreateSession sessionId r st) as [session s1]. cbn [snd] in Hs.
    assert (Ht1 : forall tid ref, tabs s1 !! tid = Some ref ->
              exists tab, tabObjects s1 !! ref = Some tab /\ Tab.id tab = tid)
      by now rewrite Hs.
    assert (Hdb1 : db s1 = db st) by now rewrite Hs.
    assert (Hbuf1 : batchBuffer s1 = batchBuffer st) by now rewrite Hs.
    destruct (getOrCreateTab_cases (signalTabId tabId) (Session.id session) r s1)
      as [(tid & ref & _ & _ & _ & ->)|[_ ->]].
    + cbn. rewrite Hdb1, Hbuf1. auto.
    + unfold newTab. cbn. rewrite Hdb1, Hbuf1. split; [assumption|]. split; [assumption|].
      intros tid ref Hlk. apply lookup_insert_Some in Hlk as [[<- <-]|[Hne Hlk]].
      * eexists. split; [apply list_lookup_middle; reflexivity | reflexivity].
      * destruct (Ht1 _ _ Hlk) as (tab & Htab & Hid).
        exists tab. split; [|assumption]. now apply lookup_app_l_Some.
  - unfold postFilter. destruct tabId as [tid|]; [|auto].
    destruct (truthy (Some tid)); [|auto].
    destruct (tabs st !! tid) as [ref|]; [|auto].
    cbn [snd]. rewrite emit_db, emit_batchBuffer, emit_tabs, emit_tabObjects.
    cbn [db batchBuffer tabs tabObjects setTabObjects].
    split; [assumption|]. split; [assumption|].
    intros tid' ref' Hlk. destruct (Ht _ _ Hlk) as (tab & Htab & Hid).
    rewrite list_lookup_alter. destruct (decide (ref = ref')) as [->|Hne].
    + rewrite Htab. simpl. eexists. split; [reflexivity | exact Hid].
    + now exists tab.
  - unfold abort. destruct (streams st !! c) as [cn|]; [|auto].
    destruct (c_open cn); [|auto]. cbn.
    split; [assumption|]. split; [assumption|].
    intros tid ref Hlk. apply lookup_delete_Some in Hlk as [_ Hlk]. now apply Ht.
  - rewrite update_frame. auto.
  - unfold addPost. cbn [batchBuffer setBatchBuffer].
    destruct (Nat.leb_spec BATCH_SIZE (length (batchBuffer st ++ [post]))) as [Hle|Hgt].
    + now apply Hflush.
    + auto.
  - now apply Hflush.
  - unfold cleanupOldPosts. cbn.
    split; [now apply deleteOlderThan_NoDup|]. auto.
Qed.

(** ** The filter-update request *)


Lemma truthy_Some (s : string) : truthy (Some s) = true <-> s <> "".
Proof. destruct s; simpl; split; congruence. Qed.

(** A filter update for a registered id: what it answers and changes. *)
Lemma postFilter_keyed (st : State) (tid : string) (filter : option string)
    (ref : nat) :
  (forall tid ref, tabs st !! tid = Some ref ->
     exists tab, tabObjects st !! ref = Some tab /\ Tab.id tab = tid) ->
  tid <> "" -> tabs st !! tid = Some ref ->
  exists tab,
    tabObjects st !! ref = Some tab /\ Tab.id tab = tid /\
    fst (postFilter (Some tid) filter st) = NoBody /\
    tabObjects (snd (postFilter (Some tid) filter st)) !! ref =
      Some (Tab.mk tid (Tab.sessionId tab) (orElse filter "")) /\
    (forall ref', ref' <> ref ->
       tabObjects (snd (postFilter (Some tid) filter st)) !! ref' = tabObjects st !! ref') /\
    tabs (snd (postFilter (Some tid) filter st)) = tabs st /\
    emitted (snd (postFilter (Some tid) filter st)) =
      (emitted st ++ [FilterUpdated tid])%list.
Proof.
  intros Hkeyed Hne Hlk.
  destruct (Hkeyed _ _ Hlk) as (tab & Htab & Hid). exists tab.
  unfold postFilter. rewrite (proj2 (truthy_Some tid) Hne), Hlk. cbn [fst snd].
  rewrite emit_tabObjects, emit_tabs, emit_emitted. cbn [tabObjects tabs emitted setTabObjects].
  assert (Hnew : alter (Tab.setFilter (orElse filter "")) ref (tabObjects st) !! ref =
                 Some (Tab.mk tid (Tab.sessionId tab) (orElse filter ""))).
  { rewrite list_lookup_alter_eq, Htab. simpl. unfold Tab.setFilter. now rewrite Hid. }
  repeat split; try assumption.
  - intros ref' Hne'. apply list_lookup_alter_ne. congruence.
  - rewrite (list_lookup_total_correct _ _ _ Hnew). reflexivity.
Qed.

Lemma postFilter_registered (st : State) (tid : string) (filter : option string)
    (ref : nat) :
  wf st -> tid <> "" -> tabs st !! tid = Some ref ->
  exists tab,
    tabObjects st !! ref = Some tab /\ Tab.id tab = tid /\
    fst (postFilter (Some tid) filter st) = NoBody /\
    tabObjects (snd (postFilter (Some tid) filter st)) !! ref =
      Some (Tab.mk tid (Tab.sessionId tab) (orElse filter "")) /\
    (forall ref', ref' <> ref ->
       tabObjects (snd (postFilter (Some tid) filter st)) !! ref' = tabObjects st !! ref') /\
    tabs (snd (postFilter (Some tid) filter st)) = tabs st /\
    emitted (snd (postFilter (Some tid) filter st)) =
      (emitted st ++ [FilterUpdated tid])%list.
Proof. intros Hwf. apply postFilter_keyed. apply (wf_tabs _ Hwf). Qed.

(** C7: [POST /filter].  A missing (or empty) tab id is answered with 400
    and an id that is not in [tabs] with 404, and in both cases the state
    is what it was: no tab is touched and nothing is published.  For an id
    in [tabs] the filter of that tab object, and of no other, is set, and
    "filter.updated" is published once, carrying that id. *)
Theorem postFilter_contract (st : State) (tabId filter : option string) :
  wf st ->
  (truthy tabId = false ->
   postFilter tabId filter st = (Json 400 "Missing tab ID", st)) /\
  (forall tid, tabId = Some tid -> tid <> "" -> tabs st !! tid = None ->
   postFilter tabId filter st = (Json 404 "Tab not found", st)) /\
  (forall tid ref, tabId = Some tid -> tid <> "" -> tabs st !! tid = Some ref ->
   exists tab,
     tabObjects st !! ref = Some tab /\ Tab.id tab = tid /\
     fst (postFilter tabId filter st) = NoBody /\
     tabObjects (snd (postFilter tabId filter st)) !! ref =
       Some (Tab.mk tid (Tab.sessionId tab) (orElse filter "")) /\
     (forall ref', ref' <> ref ->
        tabObjects (snd (postFilter tabId filter st)) !! ref' = tabObjects st !! ref') /\
     tabs (snd (postFilter tabId filter st)) = tabs st /\
     emitted (snd (postFilter tabId filter st)) = (emitted st ++ [FilterUpdated tid])%list).
Proof.
  intros Hwf. split; [|split].
  - intros Hf. unfold postFilter. destruct tabId as [tid|]; [|reflexivity].
    now rewrite Hf.
  - intros tid -> Hne Hlk. unfold postFilter.
    rewrite (proj2 (truthy_Some tid) Hne), Hlk. reflexivity.
  - intros tid ref -> Hne Hlk. now apply postFilter_registered.
Qed.

Lemma wf_liveAB : wf liveAB.
Proof. unfold liveAB, liveA. apply wf_getLive, wf_getLive, wf_initial. Qed.

Lemma postFilter_contract_witness :
  (truthy (Some "tabA") = false ->
   postFilter (Some "tabA") (Some "hello") liveAB = (Json 400 "Missing tab ID", liveAB)) /\
  (forall tid, Some "tabA" = Some tid -> tid <> "" -> tabs liveAB !! tid = None ->
   postFilter (Some "tabA") (Some "hello") liveAB = (Json 404 "Tab not found", liveAB)) /\
  (forall tid ref, Some "tabA" = Some tid -> tid <> "" -> tabs liveAB !! tid = Some ref ->
   exists tab,
     tabObjects liveAB !! ref = Some tab /\ Tab.id tab = tid /\
     fst (postFilter (Some "tabA") (Some "hello") liveAB) = NoBody /\
     tabObjects (snd (postFilter (Some "tabA") (Some "hello") liveAB)) !! ref =
       Some (Tab.mk tid (Tab.sessionId tab) (orElse (Some "hello") "")) /\
     (forall ref', ref' <> ref ->
        tabObjects (snd (postFilter (Some "tabA") (Some "hello") liveAB)) !! ref' =
        tabObjects liveAB !! ref') /\
     tabs (snd (postFilter (Some "tabA") (Some "hello") liveAB)) = tabs liveAB /\
     emitted (snd (postFilter (Some "tabA") (Some "hello") liveAB)) =
       (emitted liveAB ++ [FilterUpdated tid])%list).
Proof. apply (postFilter_contract liveAB (Some "tabA") (Some "hello")), wf_liveAB. Defined.

Example postFilter_scenario :
  fst (postFilter None (Some "hello") liveAB) = Json 400 "Missing tab ID" /\
  fst (postFilter (Some "") (Some "hello") liveAB) = Json 400 "Missing tab ID" /\
  fst (postFilter (Some "tabC") (Some "hello") liveAB) = Json 404 "Tab not found" /\
  fst (postFilter (Some "tabA") (Some "hello") liveAB) = NoBody /\
  tabObjects (snd (postFilter (Some "tabA") (Some "hello") liveAB)) =
    [Tab.mk "tabA" "session-1" "hello"; Tab.mk "tabB" "session-2" ""] /\
  map c_pending (streams (snd (postFilter (Some "tabA") (Some "hello") liveAB))) = [1; 0]%nat /\
  emitted (snd (postFilter (Some "tabA") (Some "hello") liveAB)) = [FilterUpdated "tabA"].
Proof. vm_compute. repeat split. Qed.


(** ** Closing a stream *)










Lemma fold_postsListener_notin (l : list nat) (c : nat) (s : State) :
  c ∉ l -> streams (fold_left (fun s c' => postsListener c' s) l s) !! c = streams s !! c.
Proof.
  revert s. induction l as [|c' l IH]; intros s Hc; simpl; [reflexivity|].
  apply not_elem_of_cons in Hc as [Hne Hc].
  rewrite IH by assumption. now apply queueUpdate_lookup_ne.
Qed.




(** ** Who enters a tab into the registry *)

Lemma flushPosts_tabs `{Host} (st : State) : tabs (flushPosts st) = tabs st.
Proof. unfold flushPosts. destruct (batchBuffer st); [reflexivity|]. now rewrite emit_tabs. Qed.

Lemma addPost_tabs `{Host} (p : Post.t) (st : State) : tabs (addPost p st) = tabs st.
Proof. unfold addPost. destruct (_ <=? _)%nat; [|reflexivity]. now rewrite flushPosts_tabs. Qed.

Lemma getPage_tabs `{Host} (sid : option string) (r : Draws) (st : State) :
  tabs (snd (getPage sid r st)) = tabs st /\
  tabObjects (snd (getPage sid r st)) = tabObjects st.
Proof.
  unfold getPage. pose proof (getOrCreateSession_frame sid r st) as Hs.
  destruct (getOrCreateSession sid r st) as [session s1]. simpl in *. now rewrite Hs.
Qed.

(** No callback but the live [GET /] adds an entry to [tabs]. *)
Lemma step_tabs_lookup `{Host} (e : Event) (st : State) (k : string) (ref : nat) :
  notGetLive e = true ->
  tabs (snd (step e st)) !! k = Some ref -> tabs st !! k = Some ref.
Proof.
  intros He. destruct e; try discriminate; cbn [step snd].
  - now rewrite (proj1 (getPage_tabs _ _ _)).
  - unfold postFilter. destruct tabId as [tid|]; [|trivial].
    destruct (truthy (Some tid)); [|trivial].
    destruct (tabs st !! tid); [|trivial]. cbn [snd]. now rewrite emit_tabs.
  - unfold abort. destruct (streams st !! c) as [cn|]; [|trivial].
    destruct (c_open cn); [|trivial]. simpl. intros Hlk.
    now apply lookup_delete_Some in Hlk as [_ Hlk].
  - now rewrite update_frame.
  - now rewrite addPost_tabs.
  - now rewrite flushPosts_tabs.
  - trivial.
Qed.

Lemma orElse_signalTabId (tabId : option string) (d : string) :
  orElse (signalTabId tabId) d = orElse tabId d.
Proof. now destruct tabId as [[|a tid]|]. Qed.

(** An id that is not registered stays so through every callback but a
    live [GET /] for that very id. *)
Lemma step_tabs_None `{Host} (e : Event) (st : State) (u : string) :
  avoidsTab u e = true -> tabs st !! u = None -> tabs (snd (step e st)) !! u = None.
Proof.
  intros He Hu. destruct (notGetLive e) eqn:Hn.
  - destruct (tabs (snd (step e st)) !! u) as [ref|] eqn:Hlk; [|reflexivity].
    apply step_tabs_lookup in Hlk; [congruence | assumption].
  - destruct e; try discriminate. cbn [step]. unfold getLive.
    pose proof (getOrCreateSession_frame sessionId r st) as Hs.
    destruct (getOrCreateSession sessionId r st) as [session s1]. cbn [snd] in Hs.
    assert (Hu1 : tabs s1 !! u = None) by now rewrite Hs.
    destruct (getOrCreateTab_cases (signalTabId tabId) (Session.id session) r s1)
      as [(tid & ref & _ & _ & _ & ->)|[_ ->]]; [exact Hu1|].
    unfold newTab. cbn. rewrite orElse_signalTabId.
    rewrite lookup_insert_ne; [exact Hu1|].
    unfold avoidsTab in He. apply negb_true_iff, bool_decide_eq_false in He.
    cbn [liveTabId] in He. congruence.
Qed.

Lemma run_tabs_None `{Host} (es : list Event) (st : State) (u : string) :
  forallb (avoidsTab u) es = true -> tabs st !! u = None -> tabs (run es st) !! u = None.
Proof.
  revert st. induction es as [|e es IH]; intros st Hes Hu; [assumption|].
  cbn [forallb] in Hes. apply andb_true_iff in Hes as [He Hes].
  apply (IH (snd (step e st))); [assumption | now apply step_tabs_None].
Qed.

(** The live [GET /] with a tab id registers that id. *)
Lemma getLive_registers (sid : option string) (tid : string) (r : Draws) (st : State) :
  tid <> "" -> is_Some (tabs (snd (getLive sid (Some tid) r st)) !! tid).
Proof.
  intros Hne. unfold getLive.
  destruct (getOrCreateSession sid r st) as [session s1].
  assert (Hsig : signalTabId (Some tid) = Some tid).
  { unfold signalTabId. now rewrite (proj2 (truthy_Some tid) Hne). }
  rewrite Hsig.
  destruct (getOrCreateTab_cases (Some tid) (Session.id session) r s1)
    as [(tid' & ref & [= <-] & _ & Hlk & ->)|[_ ->]].
  - simpl. now rewrite Hlk.
  - unfold newTab. simpl. destruct tid as [|a tid]; [congruence|].
    simpl. rewrite lookup_insert_eq. eauto.
Qed.

(** C10: the plain [GET /] builds a tab with the id it has drawn and does
    not enter it into [tabs] (nor create a tab object).  With the id fresh,
    a filter update for that id is answered with 404 and changes nothing,
    after whatever has happened since, live connections for other tab ids
    included, as long as no live [GET /] was served for that id; once one
    has been served with that id, the update is accepted.  No callback
    other than the live [GET /] adds an id to [tabs]. *)
Theorem getPage_does_not_register `{Host} (st : State) (cookie f : option string)
    (r : Draws) :
  tabUuid r <> "" -> tabs st !! tabUuid r = None ->
  tabs (snd (getPage cookie r st)) = tabs st /\
  tabObjects (snd (getPage cookie r st)) = tabObjects st /\
  (exists session,
     fst (getPage cookie r st) =
     Html (render (Page session (Tab.mk (tabUuid r) (Session.id session) "")
                     (snd (getPage cookie r st))))) /\
  (forall es, forallb (avoidsTab (tabUuid r)) es = true ->
     postFilter (Some (tabUuid r)) f (run es (snd (getPage cookie r st))) =
     (Json 404 "Tab not found", run es (snd (getPage cookie r st)))) /\
  (forall es sid r',
     fst (postFilter (Some (tabUuid r)) f
            (snd (getLive sid (Some (tabUuid r)) r' (run es (snd (getPage cookie r st))))))
     = NoBody) /\
  (forall e s, notGetLive e = true -> dom (tabs (snd (step e s))) ⊆ dom (tabs s)).
Proof.
  intros Hne Hfresh. destruct (getPage_tabs cookie r st) as [Ht Ho].
  split; [assumption|]. split; [assumption|]. split; [|split; [|split]].
  - unfold getPage. destruct (getOrCreateSession cookie r st) as [session s1].
    now exists session.
  - intros es Hes. unfold postFilter.
    rewrite (proj2 (truthy_Some _) Hne).
    rewrite run_tabs_None; [reflexivity | assumption | now rewrite Ht].
  - intros es sid r'.
    destruct (getLive_registers sid (tabUuid r) r' (run es (snd (getPage cookie r st))) Hne)
      as [ref Hlk].
    unfold postFilter. rewrite (proj2 (truthy_Some _) Hne), Hlk. reflexivity.
  - intros e s He k Hk. apply elem_of_dom in Hk as [ref Hk].
    apply elem_of_dom. exists ref. now apply (step_tabs_lookup e).
Qed.

Lemma getPage_does_not_register_witness :
  tabs (snd (@getPage exampleHost None draws2 liveA)) = tabs liveA /\
  tabObjects (snd (@getPage exampleHost None draws2 liveA)) = tabObjects liveA /\
  (exists session,
     fst (@getPage exampleHost None draws2 liveA) =
     Html (@render exampleHost
             (@Page exampleHost session (Tab.mk (tabUuid draws2) (Session.id session) "")
                (snd (@getPage exampleHost None draws2 liveA))))) /\
  (forall es, forallb (avoidsTab (tabUuid draws2)) es = true ->
     postFilter (Some (tabUuid draws2)) (Some "hello")
       (@run exampleHost es (snd (@getPage exampleHost None draws2 liveA))) =
     (Json 404 "Tab not found",
      @run exampleHost es (snd (@getPage exampleHost None draws2 liveA)))) /\
  (forall es sid r',
     fst (postFilter (Some (tabUuid draws2)) (Some "hello")
            (snd (getLive sid (Some (tabUuid draws2)) r'
                    (@run exampleHost es (snd (@getPage exampleHost None draws2 liveA))))))
     = NoBody) /\
  (forall e s, notGetLive e = true -> dom (tabs (snd (@step exampleHost e s))) ⊆ dom (tabs s)).
Proof.
  apply (@getPage_does_not_register exampleHost liveA None (Some "hello") draws2).
  - discriminate.
  - reflexivity.
Defined.

Example getPage_scenario :
  let st := snd (@getPage exampleHost None draws2 liveA) in
  map fst (map_to_list (tabs st)) = ["tabA"] /\
  fst (postFilter (Some "tab-uuid-2") (Some "hello") st) = Json 404 "Tab not found" /\
  fst (postFilter (Some "tab-uuid-2") (Some "hello")
         (snd (getLive (Some "session-2") (Some "tabB") draws1 st)))
    = Json 404 "Tab not found" /\
  fst (postFilter (Some "tab-uuid-2") (Some "hello")
         (snd (getLive (Some "session-2") (Some "tab-uuid-2") draws2 st))) = NoBody.
Proof. vm_compute. repeat split. Qed.

(** ** Short filters *)


Lemma effectiveFilter_long (tab : Tab.t) :
  (MIN_FILTER_LENGTH <= String.length (Tab.filter tab))%nat ->
  effectiveFilter tab = Tab.filter tab.
Proof.
  intros Hlen. unfold effectiveFilter.
  destruct (Nat.leb_spec MIN_FILTER_LENGTH (String.length (Tab.filter tab))); [reflexivity|lia].
Qed.



(** The same through the update loop: with "he" stored, the patch written
    to the stream lists both posts, and the debug fragment shows "he". *)
Example short_filter_scenario :
  let st := setDb [rowE1; rowE2] liveAB in
  fst (@update exampleHost 0 (snd (postFilter (Some "tabA") (Some "he") st))) =
  SsePatch 0
    ("elements posts{}[u2 did:b 1970-01-01T00:00:02.000Z] goodbye" ++
     "[u1 did:a 1970-01-01T00:00:01.000Z] hello world" ++
     " stats{}2/2" ++
     " debug{sleepy-fox tabA he 2}session-1/sleepy-foxsession-2/happy-tiger" ++
     "tabA/session-1/hetabB/session-2/").
Proof. vm_compute. reflexivity. Qed.

(** * Further properties of the code *)

(** ** [escapeHtml] *)

Lemma string_cons_app (x : ascii) (a b : string) : String x a ++ b = String x (a ++ b).
Proof. reflexivity. Qed.

Lemma string_app_assoc (a b c : string) : (a ++ b) ++ c = a ++ (b ++ c).
Proof.
  induction a as [|x a IH]; [reflexivity|]. rewrite !string_cons_app. now rewrite IH.
Qed.

Lemma string_app_nil_r (a : string) : a ++ "" = a.
Proof.
  induction a as [|x a IH]; [reflexivity|]. rewrite string_cons_app. now rewrite IH.
Qed.

Lemma replaceChar_app (c : ascii) (rep a b : string) :
  replaceChar c rep (a ++ b) = replaceChar c rep a ++ replaceChar c rep b.
Proof.
  induction a as [|x a IH]; [reflexivity|].
  rewrite string_cons_app. cbn [replaceChar].
  case_bool_decide; rewrite IH; [|reflexivity].
  now rewrite string_app_assoc.
Qed.

Lemma escapeHtml_app (a b : string) : escapeHtml (a ++ b) = escapeHtml a ++ escapeHtml b.
Proof. unfold escapeHtml. now rewrite !replaceChar_app. Qed.

Lemma escapeHtml_char (c : ascii) : escapeHtml (String c "") = escapeChar c.
Proof. destruct c as [[] [] [] [] [] [] [] []]; reflexivity. Qed.

Lemma escapeHtml_escapeEach (s : string) : escapeHtml s = escapeEach s.
Proof.
  induction s as [|c s IH]; [reflexivity|].
  change (String c s) with (String c "" ++ s).
  rewrite escapeHtml_app, escapeHtml_char, IH. reflexivity.
Qed.

(** X1: the five replacements of [escapeHtml], made one after the other
    on the whole text, amount to one pass in which every character is
    replaced on its own: the ampersand of an entity written by an earlier
    replacement is never escaped again, and escaping a text in pieces is
    escaping it as a whole. *)
Theorem escapeHtml_one_pass (a b : string) :
  escapeHtml a = escapeEach a /\
  escapeHtml (a ++ b) = escapeHtml a ++ escapeHtml b.
Proof. split; [apply escapeHtml_escapeEach | apply escapeHtml_app]. Qed.

Lemma allChars_app (P : ascii -> bool) (a b : string) :
  allChars P (a ++ b) = allChars P a && allChars P b.
Proof.
  induction a as [|x a IH]; [reflexivity|].
  rewrite string_cons_app. cbn [allChars]. now rewrite IH, andb_assoc.
Qed.

Lemma escapeChar_plain (c : ascii) :
  allChars (fun x => negb (isMarkupChar x)) (escapeChar c) = true.
Proof. destruct c as [[] [] [] [] [] [] [] []]; reflexivity. Qed.

Lemma escapeHtml_plain (s : string) :
  allChars (fun x => negb (isMarkupChar x)) (escapeHtml s) = true.
Proof.
  rewrite escapeHtml_escapeEach. induction s as [|c s IH]; [reflexivity|].
  simpl. now rewrite allChars_app, escapeChar_plain, IH.
Qed.

Lemma allChars_occurs (P : ascii -> bool) (c : ascii) (s : string) :
  allChars P s = true -> P c = false -> occurs c s = false.
Proof.
  intros Hs Hc. induction s as [|x s IH]; simpl in *; [reflexivity|].
  apply andb_true_iff in Hs as [Hx Hs]. rewrite IH by assumption.
  case_bool_decide; [congruence | reflexivity].
Qed.

(** X2: in the text [escapeHtml] returns, none of the characters [<], [>],
    double quote and single quote occurs, whatever the input. *)
Theorem escapeHtml_no_markup (s : string) :
  occurs "<"%char (escapeHtml s) = false /\
  occurs ">"%char (escapeHtml s) = false /\
  occurs dquote (escapeHtml s) = false /\
  occurs "'"%char (escapeHtml s) = false.
Proof.
  pose proof (escapeHtml_plain s) as Hs.
  repeat split; eapply allChars_occurs; try exact Hs; reflexivity.
Qed.

Lemma escapeChar_cases (c : ascii) :
  (c = "&"%char /\ escapeChar c = "&amp;") \/
  (c = "<"%char /\ escapeChar c = "&lt;") \/
  (c = ">"%char /\ escapeChar c = "&gt;") \/
  (c = dquote /\ escapeChar c = "&quot;") \/
  (c = "'"%char /\ escapeChar c = "&#039;") \/
  (c <> "&"%char /\ escapeChar c = String c "").
Proof.
  unfold escapeChar. repeat case_bool_decide; subst; auto 10.
Qed.

Lemma escapeChar_prefix_inj (x y : ascii) (u v : string) :
  escapeChar x ++ u = escapeChar y ++ v -> x = y /\ u = v.
Proof.
  destruct (escapeChar_cases x) as [[-> ->]|[[-> ->]|[[-> ->]|[[-> ->]|[[-> ->]|[Hx ->]]]]]];
  destruct (escapeChar_cases y) as [[-> ->]|[[-> ->]|[[-> ->]|[[-> ->]|[[-> ->]|[Hy ->]]]]]];
  intros Heq; vm_compute in Heq; simplify_eq; try congruence; split; reflexivity.
Qed.

Lemma escapeEach_inj (a b : string) : escapeEach a = escapeEach b -> a = b.
Proof.
  revert b. induction a as [|x a IH]; intros [|y b]; simpl; intros Heq.
  - reflexivity.
  - destruct (escapeChar_cases y) as [[_ H]|[[_ H]|[[_ H]|[[_ H]|[[_ H]|[_ H]]]]]];
      rewrite H in Heq; discriminate.
  - destruct (escapeChar_cases x) as [[_ H]|[[_ H]|[[_ H]|[[_ H]|[[_ H]|[_ H]]]]]];
      rewrite H in Heq; discriminate.
  - apply escapeChar_prefix_inj in Heq as [-> Heq]. f_equal. now apply IH.
Qed.

(** X3: [escapeHtml] loses nothing: two texts with the same escaped form
    are the same text. *)
Theorem escapeHtml_injective (a b : string) : escapeHtml a = escapeHtml b -> a = b.
Proof. rewrite !escapeHtml_escapeEach. apply escapeEach_inj. Qed.

Lemma escapeHtml_injective_witness :
  escapeHtml "a<b & c" = "a&lt;b &amp; c" /\ "a<b & c" = "a<b & c".
Proof.
  split; [reflexivity|]. apply (escapeHtml_injective "a<b & c" "a<b & c"). reflexivity.
Defined.

(** ** [highlightText] *)

Lemma lowerCase_length (s : string) : String.length (lowerCase s) = String.length s.
Proof. induction s as [|c s IH]; simpl; [reflexivity | now rewrite IH]. Qed.

Lemma substring_prefix (m post : string) :
  substring 0 (String.length m) (m ++ post) = m.
Proof.
  induction m as [|c m IH]; simpl.
  - now destruct post.
  - now rewrite IH.
Qed.

Lemma skipChars_prefix (m post : string) : skipChars (String.length m) (m ++ post) = post.
Proof. induction m as [|c m IH]; simpl; [reflexivity | exact IH]. Qed.

Lemma substring_take (m : nat) (s : string) :
  exists b, s = substring 0 m s ++ b.
Proof.
  revert m. induction s as [|c s IH]; intros [|m].
  - now exists "".
  - now exists "".
  - now exists (String c s).
  - destruct (IH m) as [b Hb]. exists b. simpl. rewrite string_cons_app. now rewrite <- Hb.
Qed.

Lemma substring_skip (n m : nat) (s : string) :
  exists a, s = a ++ skipChars n s /\ substring n m s = substring 0 m (skipChars n s).
Proof.
  revert n. induction s as [|c s IH]; intros [|n].
  - now exists "".
  - exists "". split; [reflexivity | now destruct m].
  - now exists "".
  - destruct (IH n) as (a & Ha & Hsub). exists (String c a). simpl.
    rewrite string_cons_app. split; [now rewrite <- Ha | exact Hsub].
Qed.

Lemma substring_length (n m : nat) (s : string) :
  (String.length (substring n m s) <= m)%nat.
Proof.
  revert n m. induction s as [|c s IH]; intros [|n] [|m]; simpl; try lia.
  - specialize (IH 0%nat m). lia.
  - apply IH.
  - apply IH.
Qed.

(** A slice is a piece of the text, no longer than asked for. *)
Lemma slice_piece (from to : nat) (s : string) :
  (exists a b, s = a ++ slice from to s ++ b) /\
  (String.length (slice from to s) <= to - from)%nat.
Proof.
  unfold slice. split; [|apply substring_length].
  destruct (substring_skip from (to - from) s) as (a & Ha & ->).
  destruct (substring_take (to - from) (skipChars from s)) as [b Hb].
  exists a, b. now rewrite <- Hb.
Qed.

Lemma marked_same (pat s : string) : marked pat s s.
Proof. induction s as [|c s IH]; [constructor | now constructor]. Qed.

Lemma markFuel_marked (fuel : nat) (pat s : string) :
  pat <> "" -> (String.length s <= fuel)%nat -> marked pat (markFuel fuel pat s) s.
Proof.
  intros Hpat. revert s. induction fuel as [|fuel IH]; intros s Hlen.
  - destruct s; [constructor | simpl in Hlen; lia].
  - destruct s as [|c s]; [constructor|]. cbn [markFuel].
    destruct (startsWithNoCase pat (String c s)) eqn:Hsw.
    + apply startsWithNoCase_true in Hsw as (m & post & Hs & Hm).
      assert (Hmlen : String.length m = String.length pat).
      { now rewrite <- (lowerCase_length m), Hm, lowerCase_length. }
      rewrite Hs, <- Hmlen, substring_prefix, skipChars_prefix.
      assert (Hne : m <> "").
      { intros ->. destruct pat; [congruence | discriminate]. }
      apply marked_mark; [assumption | assumption |].
      apply IH. rewrite Hs, string_app_length in Hlen.
      destruct m; [congruence | simpl in Hlen; lia].
    + constructor. apply IH. simpl in Hlen. lia.
Qed.

Lemma escapeHtml_nonempty (s : string) : s <> "" -> escapeHtml s <> "".
Proof.
  intros Hs Heq. apply Hs. apply escapeEach_inj. now rewrite <- !escapeHtml_escapeEach, Heq.
Qed.

(** X4: what [highlightText] returns is, between an optional leading and
    an optional trailing ellipsis, the escaped form of a piece of the text
    of at most 280 characters, in which some occurrences of the escaped
    filter (in whatever case) are wrapped in [<mark>] and [</mark>].  The
    escaped piece holds no [<], [>] or quote, so the only markup in the
    result is those mark elements. *)
Theorem highlightText_marks_only (text filter : string) :
  exists prefix out suffix snippet,
    highlightText text filter = prefix ++ out ++ suffix /\
    (prefix = "" \/ prefix = "...") /\
    (suffix = "" \/ suffix = "...") /\
    marked (escapeHtml filter) out (escapeHtml snippet) /\
    (exists a b, text = a ++ snippet ++ b) /\
    (String.length snippet <= 280)%nat /\
    allChars (fun c => negb (isMarkupChar c)) (escapeHtml snippet) = true.
Proof.
  assert (Hplain : forall from to, (to - from <= 280)%nat ->
            exists prefix out suffix snippet,
              escapeHtml (slice from to text) = prefix ++ out ++ suffix /\
              (prefix = "" \/ prefix = "...") /\ (suffix = "" \/ suffix = "...") /\
              marked (escapeHtml filter) out (escapeHtml snippet) /\
              (exists a b, text = a ++ snippet ++ b) /\
              (String.length snippet <= 280)%nat /\
              allChars (fun c => negb (isMarkupChar c)) (escapeHtml snippet) = true).
  { intros from to Hlen. exists "", (escapeHtml (slice from to text)), "", (slice from to text).
    destruct (slice_piece from to text) as [Hpiece Hl].
    rewrite string_app_nil_r. repeat split; auto.
    - apply marked_same.
    - lia.
    - apply escapeHtml_plain. }
  unfold highlightText. destruct (truthy (Some filter)) eqn:Hf; [|apply Hplain; lia].
  destruct (indexOf (lowerCase filter) (lowerCase text)) as [i|]; [|apply Hplain; lia].
  cbn zeta.
  set (start := if (180 <? i)%nat then Nat.max 0 (i - 100) else 0%nat).
  set (end_ := if (start + 280 <? String.length text)%nat
               then (start + 280)%nat else String.length text).
  destruct (slice_piece start end_ text) as [Hpiece Hl].
  exists (if (180 <? i)%nat then "..." else ""),
         (markAll (escapeHtml filter) (escapeHtml (slice start end_ text))),
         (if (start + 280 <? String.length text)%nat then "..." else ""),
         (slice start end_ text).
  split; [reflexivity|]. split; [destruct (180 <? i)%nat; auto|].
  split; [destruct (start + 280 <? String.length text)%nat; auto|].
  split; [|split; [assumption|split; [|apply escapeHtml_plain]]].
  - apply markFuel_marked; [|lia].
    apply escapeHtml_nonempty. intros ->. discriminate.
  - subst end_. destruct (Nat.ltb_spec (start + 280) (String.length text)); lia.
Qed.

Example highlightText_ex1 :
  highlightText "Hello <b>World</b> hello" "hello" =
  "<mark>Hello</mark> &lt;b&gt;World&lt;/b&gt; <mark>hello</mark>".
Proof. reflexivity. Qed.

(** The marks are placed on the escaped text, so a filter can match inside
    an entity that escaping has written. *)
Example highlightText_ex2 :
  highlightText "amp & x" "amp" = "<mark>amp</mark> &<mark>amp</mark>; x".
Proof. reflexivity. Qed.

(** ** The author shown with a post *)




Example authorHandle_ex :
  authorHandle "did:plc:abcdefghijklmnopqrstuvwxyz" = "abcdefghijklmnop" /\
  authorHandle "did:plc:" = "unknown" /\
  authorHandle "" = "unknown".
Proof. repeat split. Qed.

(** ** A match is shown *)

Lemma lowerCase_app (a b : string) : lowerCase (a ++ b) = lowerCase a ++ lowerCase b.
Proof.
  induction a as [|x a IH]; [reflexivity|].
  rewrite string_cons_app. cbn [lowerCase]. now rewrite IH.
Qed.

Lemma lowerCase_split (t x y : string) :
  lowerCase t = x ++ y ->
  exists t1 t2, t = t1 ++ t2 /\ lowerCase t1 = x /\ lowerCase t2 = y.
Proof.
  revert t. induction x as [|c x IH]; intros t Ht.
  - now exists "", t.
  - destruct t as [|d t]; [discriminate|].
    rewrite string_cons_app in Ht. cbn [lowerCase] in Ht. injection Ht as Hc Ht.
    destruct (IH t Ht) as (t1 & t2 & -> & H1 & H2).
    exists (String d t1), t2. cbn [lowerCase]. now rewrite Hc, H1.
Qed.

Lemma startsWith_true (p s : string) :
  startsWith p s = true <-> exists b, s = p ++ b.
Proof.
  revert s. induction p as [|c p IH]; intros s.
  - split; [intros _; now exists s | now destruct s].
  - destruct s as [|d s]; simpl.
    + split; [discriminate | intros [b Hb]; discriminate].
    + rewrite andb_true_iff, bool_decide_eq_true, IH. split.
      * intros [-> [b ->]]. now exists b.
      * intros [b Hb]. rewrite string_cons_app in Hb. injection Hb as -> ->.
        split; [reflexivity | now exists b].
Qed.

(** [indexOf] finds the pattern where it first begins. *)
Lemma indexOf_Some (p s : string) (i : nat) :
  indexOf p s = Some i -> exists a b, s = a ++ p ++ b /\ String.length a = i.
Proof.
  revert i. induction s as [|c s IH]; intros i; cbn [indexOf].
  - destruct (startsWith p "") eqn:Hp; [|discriminate].
    intros [= <-]. apply startsWith_true in Hp as [b Hb]. now exists "", b.
  - destruct (startsWith p (String c s)) eqn:Hp.
    + intros [= <-]. apply startsWith_true in Hp as [b Hb]. now exists "", b.
    + destruct (indexOf p s) as [j|]; [|discriminate]. intros [= <-].
      destruct (IH j eq_refl) as (a & b & -> & Ha).
      exists (String c a), b. simpl. now rewrite Ha.
Qed.

Lemma indexOf_occurs (p a b : string) : exists i, indexOf p (a ++ p ++ b) = Some i.
Proof.
  induction a as [|c a [i IH]].
  - exists 0%nat. change ("" ++ p ++ b) with (p ++ b).
    assert (Hp : startsWith p (p ++ b) = true) by (apply startsWith_true; now exists b).
    destruct (p ++ b); cbn [indexOf]; now rewrite Hp.
  - rewrite string_cons_app. cbn [indexOf].
    destruct (startsWith p (String c (a ++ p ++ b))); [now exists 0%nat|].
    rewrite IH. now exists (S i).
Qed.

Lemma skipChars_app (n : nat) (a r : string) :
  (n <= String.length a)%nat -> skipChars n (a ++ r) = skipChars n a ++ r.
Proof.
  revert a. induction n as [|n IH]; intros a Hn; [reflexivity|].
  destruct a as [|c a]; simpl in *; [lia|]. apply IH. lia.
Qed.

Lemma skipChars_length (n : nat) (a : string) :
  String.length (skipChars n a) = (String.length a - n)%nat.
Proof.
  revert a. induction n as [|n IH]; intros a; simpl; [lia|].
  destruct a as [|c a]; simpl; [reflexivity | apply IH].
Qed.

Lemma substring_app (k : nat) (x y : string) :
  (String.length x <= k)%nat ->
  substring 0 k (x ++ y) = x ++ substring 0 (k - String.length x) y.
Proof.
  revert k. induction x as [|c x IH]; intros k Hk.
  - simpl. now rewrite Nat.sub_0_r.
  - destruct k as [|k]; simpl in *; [lia|]. rewrite IH by lia. reflexivity.
Qed.

(** A slice that covers an inner part of the text holds that part. *)
Lemma slice_covers (from to : nat) (a m b : string) :
  (from <= String.length a)%nat -> (String.length a + String.length m <= to)%nat ->
  exists x z, slice from to (a ++ m ++ b) = x ++ m ++ z.
Proof.
  intros Hfrom Hto. unfold slice.
  destruct (substring_skip from (to - from) (a ++ m ++ b)) as (_ & _ & ->).
  rewrite skipChars_app by assumption.
  rewrite substring_app by (rewrite skipChars_length; lia).
  rewrite substring_app by (rewrite skipChars_length; lia).
  eauto.
Qed.

Lemma lowerCase_escapeChar (c : ascii) :
  lowerCase (escapeChar c) = escapeChar (toLower c).
Proof. destruct c as [[] [] [] [] [] [] [] []]; reflexivity. Qed.

Lemma lowerCase_escapeHtml (s : string) :
  lowerCase (escapeHtml s) = escapeHtml (lowerCase s).
Proof.
  rewrite !escapeHtml_escapeEach. induction s as [|c s IH]; [reflexivity|].
  cbn [escapeEach lowerCase]. now rewrite lowerCase_app, lowerCase_escapeChar, IH.
Qed.

Lemma markFuel_marks (fuel : nat) (pat s : string) :
  pat <> "" -> (String.length s <= fuel)%nat ->
  (exists x y z, s = x ++ y ++ z /\ lowerCase y = lowerCase pat) ->
  exists pre w post,
    markFuel fuel pat s = pre ++ "<mark>" ++ w ++ "</mark>" ++ post /\
    lowerCase w = lowerCase pat.
Proof.
  intros Hpat. revert s. induction fuel as [|fuel IH]; intros s Hlen (x & y & z & Hs & Hy).
  - destruct s; [|simpl in Hlen; lia]. destruct x; [|discriminate].
    destruct y; [|discriminate]. destruct pat; [congruence | discriminate].
  - destruct s as [|c s].
    + destruct x; [|discriminate]. destruct y; [|discriminate].
      destruct pat; [congruence | discriminate].
    + cbn [markFuel]. destruct (startsWithNoCase pat (String c s)) eqn:Hsw.
      * apply startsWithNoCase_true in Hsw as (m & post & Hm & Hlow).
        exists "", (substring 0 (String.length pat) (String c s)),
               (markFuel fuel pat (skipChars (String.length pat) (String c s))).
        split; [reflexivity|].
        assert (Hmlen : String.length m = String.length pat).
        { now rewrite <- (lowerCase_length m), Hlow, lowerCase_length. }
        now rewrite Hm, <- Hmlen, substring_prefix.
      * destruct x as [|d x].
        -- exfalso. change ("" ++ y ++ z) with (y ++ z) in Hs.
           assert (Ht : startsWithNoCase pat (String c s) = true).
           { apply startsWithNoCase_true. now exists y, z. }
           congruence.
        -- rewrite string_cons_app in Hs. injection Hs as -> ->.
           destruct (IH (x ++ y ++ z)) as (pre & w & post & Heq & Hw).
           { simpl in Hlen. lia. }
           { now exists x, y, z. }
           exists (String d pre), w, post. rewrite Heq. split; [reflexivity | assumption].
Qed.

(** X6: a filter of at most 100 characters that occurs in the text, in
    whatever case, is shown: the first occurrence lies inside the piece that
    [highlightText] cuts out, and the result holds a mark element around
    the escaped filter (in the case the text has it). *)
Theorem highlightText_shows_match (text filter a m b : string) :
  filter <> "" -> (String.length filter <= 100)%nat ->
  text = a ++ m ++ b -> lowerCase m = lowerCase filter ->
  exists pre w post,
    highlightText text filter = pre ++ "<mark>" ++ w ++ "</mark>" ++ post /\
    lowerCase w = lowerCase (escapeHtml filter).
Proof.
  intros Hne Hflen Htext Hm. unfold highlightText.
  rewrite (proj2 (truthy_Some filter) Hne).
  assert (Hlow : lowerCase text = lowerCase a ++ lowerCase filter ++ lowerCase b).
  { now rewrite Htext, !lowerCase_app, Hm. }
  destruct (indexOf_occurs (lowerCase filter) (lowerCase a) (lowerCase b)) as [i Hi].
  rewrite <- Hlow in Hi. rewrite Hi. cbn zeta.
  apply indexOf_Some in Hi as (la & lb & Hsplit & Hla).
  apply lowerCase_split in Hsplit as (t1 & t23 & Ht & H1 & H23).
  apply lowerCase_split in H23 as (t2 & t3 & -> & H2 & _).
  assert (Hl1 : String.length t1 = i) by now rewrite <- (lowerCase_length t1), H1.
  assert (Hl2 : String.length t2 = String.length filter).
  { now rewrite <- (lowerCase_length t2), H2, lowerCase_length. }
  set (start := if (180 <? i)%nat then Nat.max 0 (i - 100) else 0%nat).
  set (end_ := if (start + 280 <? String.length text)%nat
               then (start + 280)%nat else String.length text).
  assert (Hlen : String.length text = (i + String.length filter + String.length t3)%nat).
  { rewrite Ht, !string_app_length. lia. }
  assert (Hstart : (start <= i)%nat).
  { subst start. destruct (Nat.ltb_spec 180 i); lia. }
  assert (Hend : (i + String.length filter <= end_)%nat).
  { subst end_ start.
    destruct (Nat.ltb_spec 180 i);
      match goal with |- context [(?x <? ?y)%nat] => destruct (Nat.ltb_spec x y) end; lia. }
  destruct (slice_covers start end_ t1 t2 t3) as (x & z & Hslice); [lia | lia |].
  rewrite <- Ht in Hslice. rewrite Hslice.
  destruct (markFuel_marks (String.length (escapeHtml (x ++ t2 ++ z)))
              (escapeHtml filter) (escapeHtml (x ++ t2 ++ z)))
    as (pre & w & post & Heq & Hw).
  - now apply escapeHtml_nonempty.
  - lia.
  - exists (escapeHtml x), (escapeHtml t2), (escapeHtml z).
    split; [now rewrite !escapeHtml_app|].
    now rewrite !lowerCase_escapeHtml, H2.
  - unfold markAll. rewrite Heq.
    exists ((if (180 <? i)%nat then "..." else "") ++ pre), w,
           (post ++ (if (start + 280 <? String.length text)%nat then "..." else "")).
    split; [|assumption].
    rewrite !string_app_assoc. reflexivity.
Qed.

Lemma highlightText_shows_match_witness :
  exists pre w post,
    highlightText "say Hello <you>" "hello" = pre ++ "<mark>" ++ w ++ "</mark>" ++ post /\
    lowerCase w = lowerCase (escapeHtml "hello").
Proof.
  apply (highlightText_shows_match "say Hello <you>" "hello" "say " "Hello" " <you>").
  - discriminate.
  - simpl. lia.
  - reflexivity.
  - reflexivity.
Defined.

(** ** LIKE with wildcards *)

Lemma anySuffix_here (k : string -> bool) (s : string) : k s = true -> anySuffix k s = true.
Proof. intros Hk. destruct s; simpl; now rewrite Hk. Qed.

Lemma anySuffix_mono (k1 k2 : string -> bool) (s : string) :
  (forall x, k1 x = true -> k2 x = true) -> anySuffix k1 s = true -> anySuffix k2 s = true.
Proof.
  intros Hk. induction s as [|c s IH]; simpl; intros Hs.
  - apply orb_true_iff in Hs as [Hs|Hs]; [|discriminate]. now rewrite (Hk _ Hs).
  - apply orb_true_iff in Hs as [Hs|Hs]; [now rewrite (Hk _ Hs)|].
    rewrite (IH Hs). apply orb_true_r.
Qed.

Lemma likeMatch_literal (f x : string) :
  startsWithNoCase f x = true -> likeMatch (f ++ "%") x = true.
Proof.
  revert x. induction f as [|a f IH]; intros x Hx.
  - apply likeMatch_percent.
  - destruct x as [|b x]; [discriminate|]. simpl in Hx.
    apply andb_true_iff in Hx as [Hab Hx].
    rewrite string_cons_app. cbn [likeMatch]. case_bool_decide.
    + simpl. rewrite (anySuffix_here _ x (IH x Hx)). apply orb_true_r.
    + now rewrite Hab, orb_true_r, IH.
Qed.

(** X7: the unescaped filter can only widen the match.  Whatever
    characters other than U+0000 a filter within the limit of LIKE holds,
    a post whose text contains the filter itself before its first U+0000,
    in whatever case, matches [text LIKE '%filter%']. *)
Theorem textLike_literal (f s : string) :
  nulFree f = true -> likeTooComplex f = false ->
  includesNoCase f (cstring s) = true -> textLike f s = true.
Proof.
  intros Hn _. unfold includesNoCase, textLike. rewrite cstring_pattern by assumption.
  cbn [likeMatch]. rewrite bool_decide_eq_true_2 by reflexivity.
  apply anySuffix_mono. apply likeMatch_literal.
Qed.

Lemma textLike_literal_witness :
  includesNoCase "50%_off" (cstring "Now 50%_OFF today") = true /\
  textLike "50%_off" "Now 50%_OFF today" = true.
Proof.
  split; [reflexivity|].
  apply (textLike_literal "50%_off" "Now 50%_OFF today"); reflexivity.
Defined.

Lemma likeMatch_percents (p s : string) :
  p <> "" -> allChars (fun c => bool_decide (c = "%"%char)) p = true ->
  likeMatch p s = true.
Proof.
  revert s. induction p as [|c p IH]; intros s Hne Hp; [congruence|].
  simpl in Hp. apply andb_true_iff in Hp as [Hc Hp]. cbn [likeMatch]. rewrite Hc.
  destruct p as [|d p].
  - apply (likeMatch_percent s).
  - apply anySuffix_here. now apply IH.
Qed.

Lemma likeMatch_underscores (p x : string) :
  allChars (fun c => bool_decide (c = "_"%char)) p = true ->
  likeMatch (p ++ "%") x = (String.length p <=? String.length x)%nat.
Proof.
  revert x. induction p as [|c p IH]; intros x Hp.
  - rewrite likeMatch_percent. reflexivity.
  - simpl in Hp. apply andb_true_iff in Hp as [Hc Hp]. apply bool_decide_eq_true in Hc.
    subst c. rewrite string_cons_app. cbn [likeMatch].
    rewrite bool_decide_eq_false_2 by discriminate.
    destruct x as [|b x]; [reflexivity|].
    rewrite bool_decide_eq_true_2 by reflexivity. simpl. now apply IH.
Qed.

Lemma anySuffix_length (n : nat) (s : string) :
  anySuffix (fun x => (n <=? String.length x)%nat) s = (n <=? String.length s)%nat.
Proof.
  induction s as [|c s IH]; cbn [anySuffix]; [now rewrite orb_false_r|].
  rewrite IH. cbn [String.length].
  destruct (Nat.leb_spec n (S (String.length s))), (Nat.leb_spec n (String.length s));
    simpl; try reflexivity; lia.
Qed.

(** X8: filters made of wildcards, within the limit of LIKE.  A filter
    of percent signs matches every text, so [queryPosts] returns with it
    what it returns with the empty filter; a filter of [n] underscores
    matches exactly the texts with at least [n] characters before their
    first U+0000. *)
Theorem textLike_wildcards_only `{Host} (f : string) (rows : list Row.t) :
  likeTooComplex f = false ->
  (allChars (fun c => bool_decide (c = "%"%char)) f = true ->
   (forall s, textLike f s = true) /\ queryPosts f rows = queryPosts "" rows) /\
  (allChars (fun c => bool_decide (c = "_"%char)) f = true ->
   forall s, textLike f s = (String.length f <=? String.length (cstring s))%nat).
Proof.
  intros _. split.
  - intros Hf.
    assert (Hn : nulFree f = true).
    { unfold nulFree. now rewrite (allChars_occurs _ "000"%char f Hf). }
    assert (Hall : forall s, textLike f s = true).
    { intros s. unfold textLike. rewrite cstring_pattern by assumption.
      apply likeMatch_percents; [discriminate|]. cbn [allChars].
      rewrite allChars_app, Hf. reflexivity. }
    split; [exact Hall|].
    unfold queryPosts, selectPosts, whereLike. destruct (truthy (Some f)); [|reflexivity].
    rewrite (List.forallb_filter_id _ rows); [reflexivity|].
    apply forallb_forall. intros r _. apply Hall.
  - intros Hf s.
    assert (Hn : nulFree f = true).
    { unfold nulFree. now rewrite (allChars_occurs _ "000"%char f Hf). }
    unfold textLike. rewrite cstring_pattern by assumption. cbn [likeMatch].
    rewrite bool_decide_eq_true_2 by reflexivity.
    rewrite (anySuffix_ext _ (fun x => (String.length f <=? String.length x)%nat)).
    + apply anySuffix_length.
    + intros x. now apply likeMatch_underscores.
Qed.

Lemma textLike_wildcards_only_witness :
  (allChars (fun c => bool_decide (c = "%"%char)) "%%%" = true ->
   (forall s, textLike "%%%" s = true) /\
   @queryPosts exampleHost "%%%" [rowE1; rowE2] = @queryPosts exampleHost "" [rowE1; rowE2]) /\
  (allChars (fun c => bool_decide (c = "_"%char)) "%%%" = true ->
   forall s, textLike "%%%" s = (String.length "%%%" <=? String.length (cstring s))%nat).
Proof. apply (@textLike_wildcards_only exampleHost "%%%" [rowE1; rowE2]). reflexivity. Defined.

Example wildcard_filters :
  @queryPosts exampleHost "%%%" [rowE1; rowE2] = [E2; E1] /\
  @queryPosts exampleHost "___________" [rowE1; rowE2] = [E1] /\
  @queryPosts exampleHost "h_llo" [rowE1; rowE2] = [E1].
Proof. repeat split. Qed.

(** ** What a query returns *)

Lemma StronglySorted_app_cross {A} (R : A -> A -> Prop) (l1 l2 : list A) :
  StronglySorted R (l1 ++ l2) -> forall a b, In a l1 -> In b l2 -> R a b.
Proof.
  induction l1 as [|x l1 IH]; simpl; intros Hs a b Ha Hb; [contradiction|].
  inversion Hs as [|? ? Hs' Hx]; subst. destruct Ha as [->|Ha].
  - rewrite List.Forall_forall in Hx. apply Hx. apply in_or_app. now right.
  - now apply (IH Hs').
Qed.

Lemma StronglySorted_app_l {A} (R : A -> A -> Prop) (l1 l2 : list A) :
  StronglySorted R (l1 ++ l2) -> StronglySorted R l1.
Proof.
  induction l1 as [|x l1 IH]; simpl; intros Hs; [constructor|].
  inversion Hs as [|? ? Hs' Hx]; subst. constructor; [now apply IH|].
  rewrite List.Forall_forall in *. intros y Hy. apply Hx. apply in_or_app. now left.
Qed.

(** X9: for every filter, empty or not, [queryPosts] returns the posts of
    [min 100 n] of the [n] rows that pass the WHERE clause, newest first,
    and they are the most recent ones: a passing row that is left out is
    no newer than any row returned. *)
Theorem queryPosts_most_recent `{Host} (f : string) (rows : list Row.t) :
  queryPosts f rows = map rowPost (selectPosts f rows) /\
  length (queryPosts f rows) = Nat.min 100 (length (whereLike f rows)) /\
  StronglySorted newerFirst (selectPosts f rows) /\
  (forall r, In r (selectPosts f rows) -> In r (whereLike f rows)) /\
  (forall r r', In r (whereLike f rows) -> ~ In r (selectPosts f rows) ->
                In r' (selectPosts f rows) ->
                (Row.timestamp r <= Row.timestamp r')%Z).
Proof.
  pose proof (orderDesc_perm (whereLike f rows)) as Hperm.
  pose proof (orderDesc_sorted (whereLike f rows)) as Hsorted.
  unfold queryPosts, selectPosts, QUERY_LIMIT.
  rewrite <- (firstn_skipn 100 (orderDesc (whereLike f rows))) in Hsorted.
  split; [reflexivity|]. split; [|split; [|split]].
  - rewrite length_map, length_firstn. now rewrite (Permutation_length Hperm).
  - now apply StronglySorted_app_l in Hsorted.
  - intros r Hr. apply In_firstn in Hr. now apply (Permutation_in _ Hperm).
  - intros r r' Hr Hnot Hr'.
    apply (Permutation_in _ (Permutation_sym Hperm)) in Hr.
    rewrite <- (firstn_skipn 100 (orderDesc (whereLike f rows))) in Hr.
    apply in_app_or in Hr as [Hr|Hr]; [contradiction|].
    apply (StronglySorted_app_cross _ _ _ Hsorted r' r Hr' Hr).
Qed.

(** ** What a flush stores *)

Lemma insertMany_appends `{Host} (posts : list Post.t) (rows : list Row.t) :
  exists new,
    insertMany posts rows = (rows ++ new)%list /\
    (forall r, In r new ->
       exists p, In p posts /\ r = postRow p /\ ~ In (Row.uri r) (map Row.uri rows)) /\
    (length new <= length posts)%nat.
Proof.
  revert rows. induction posts as [|p posts IH]; intros rows.
  - exists []. rewrite app_nil_r. split; [reflexivity|]. split; [|simpl; lia].
    intros r [].
  - change (insertMany (p :: posts) rows)
      with (insertMany posts (insertOrIgnore (postRow p) rows)).
    unfold insertOrIgnore. destruct (hasUri (Row.uri (postRow p)) rows) eqn:Hp.
    + destruct (IH rows) as (new & Heq & Hnew & Hlen). exists new.
      split; [assumption|]. split; [|simpl; lia].
      intros r Hr. destruct (Hnew r Hr) as (q & Hq & Hrq & Hfresh).
      exists q. split; [now right | now split].
    + destruct (IH (rows ++ [postRow p])%list) as (new & Heq & Hnew & Hlen).
      exists (postRow p :: new). rewrite Heq, <- app_assoc. split; [reflexivity|].
      split; [|simpl; lia].
      intros r [<-|Hr].
      * exists p. split; [now left|]. split; [reflexivity|].
        intros Hin. apply hasUri_true in Hin. congruence.
      * destruct (Hnew r Hr) as (q & Hq & Hrq & Hfresh).
        exists q. split; [now right|]. split; [assumption|].
        intros Hin. apply Hfresh. rewrite map_app. apply in_or_app. now left.
Qed.

(** X10: a flush only appends.  The table after [flushPosts] is the table
    before it followed by new rows; every new row is the row of a post of
    the batch whose uri was not stored; afterwards the uri of every post
    of the batch is stored; and the row count grows by at most the size of
    the batch. *)
Theorem flushPosts_appends `{Host} (st : State) :
  exists new,
    db (flushPosts st) = (db st ++ new)%list /\
    (forall r, In r new ->
       exists p, In p (batchBuffer st) /\ r = postRow p /\
                 ~ In (Row.uri r) (map Row.uri (db st))) /\
    (forall p, In p (batchBuffer st) ->
       In (Post.uri p) (map Row.uri (db (flushPosts st)))) /\
    (getTotalCount (db st) <= getTotalCount (db (flushPosts st))
       <= getTotalCount (db st) + length (batchBuffer st))%nat.
Proof.
  rewrite flushPosts_db.
  destruct (insertMany_appends (batchBuffer st) (db st)) as (new & Heq & Hnew & Hlen).
  exists new. split; [assumption|]. split; [assumption|]. split.
  - intros p Hp. now apply insertMany_has_uri.
  - unfold getTotalCount. rewrite Heq, length_app. lia.
Qed.

Lemma in_split_first (posts : list Post.t) (p : Post.t) :
  In p posts ->
  exists l1 q l2, posts = (l1 ++ q :: l2)%list /\ Post.uri q = Post.uri p /\
                  forall x, In x l1 -> Post.uri x <> Post.uri p.
Proof.
  induction posts as [|x posts IH]; intros Hp; [contradiction|].
  destruct (decide (Post.uri x = Post.uri p)) as [Hx|Hx].
  - exists [], x, posts. repeat split; [assumption | contradiction].
  - destruct Hp as [->|Hp]; [congruence|].
    destruct (IH Hp) as (l1 & q & l2 & -> & Hq & Hl1).
    exists (x :: l1), q, l2. repeat split; [assumption|].
    intros y [<-|Hy]; [assumption | now apply Hl1].
Qed.

(** X11: within one batch the first post wins.  When the batch holds
    posts with a uri that is not stored yet, the flush stores for that uri
    the row of the first of them in the batch, and only that row. *)
Theorem flushPosts_first_in_batch `{Host} (st : State) (p : Post.t) :
  List.NoDup (map Row.uri (db st)) -> In p (batchBuffer st) ->
  ~ In (Post.uri p) (map Row.uri (db st)) ->
  exists l1 q l2,
    batchBuffer st = (l1 ++ q :: l2)%list /\ Post.uri q = Post.uri p /\
    (forall x, In x l1 -> Post.uri x <> Post.uri p) /\
    List.filter (fun r => bool_decide (Row.uri r = Post.uri p)) (db (flushPosts st))
      = [postRow q].
Proof.
  intros Hnd Hp Hfresh.
  destruct (in_split_first _ _ Hp) as (l1 & q & l2 & Hb & Hq & Hl1).
  exists l1, q, l2. split; [assumption|]. split; [assumption|]. split; [assumption|].
  rewrite flushPosts_db, Hb, insertMany_app.
  change (insertMany (q :: l2) (insertMany l1 (db st)))
    with (insertMany l2 (insertOrIgnore (postRow q) (insertMany l1 (db st)))).
  assert (Hnot : hasUri (Row.uri (postRow q)) (insertMany l1 (db st)) = false).
  { destruct (hasUri (Row.uri (postRow q)) (insertMany l1 (db st))) eqn:Hh; [|reflexivity].
    exfalso. apply hasUri_true in Hh.
    destruct (insertMany_appends l1 (db st)) as (new & Heq & Hnew & _).
    rewrite Heq, map_app in Hh. apply in_app_or in Hh as [Hh|Hh].
    - apply Hfresh. simpl in Hh. now rewrite <- Hq.
    - apply in_map_iff in Hh as (r & Hr & Hin).
      destruct (Hnew r Hin) as (x & Hx & -> & _).
      apply (Hl1 x Hx). simpl in Hr. now rewrite Hr. }
  unfold insertOrIgnore. rewrite Hnot.
  replace (Post.uri p) with (Row.uri (postRow q)) by exact Hq.
  apply filter_uri_unique.
  - apply insertMany_NoDup.
    pose proof (insertOrIgnore_NoDup (postRow q) (insertMany l1 (db st))
                  (insertMany_NoDup l1 (db st) Hnd)) as Hnd'.
    unfold insertOrIgnore in Hnd'. now rewrite Hnot in Hnd'.
  - apply insertMany_In. apply in_or_app. right. now left.
Qed.

Lemma flushPosts_first_in_batch_witness :
  exists l1 q l2,
    batchBuffer (setBatchBuffer [E2; E1; E3] initial) = (l1 ++ q :: l2)%list /\
    Post.uri q = Post.uri E3 /\
    (forall x, In x l1 -> Post.uri x <> Post.uri E3) /\
    List.filter (fun r => bool_decide (Row.uri r = Post.uri E3))
      (db (@flushPosts exampleHost (setBatchBuffer [E2; E1; E3] initial)))
      = [@postRow exampleHost q].
Proof.
  apply (@flushPosts_first_in_batch exampleHost (setBatchBuffer [E2; E1; E3] initial) E3).
  - constructor.
  - simpl. auto.
  - simpl. tauto.
Defined.

Example first_in_batch_scenario :
  db (@flushPosts exampleHost (setBatchBuffer [E2; E1; E3] initial)) = [rowE2; rowE1].
Proof. reflexivity. Qed.

(** ** Evictions compose *)

Lemma filter_filter_weaker {A} (P Q : A -> bool) (l : list A) :
  (forall x, P x = true -> Q x = true) ->
  List.filter P (List.filter Q l) = List.filter P l.
Proof.
  intros Himp. induction l as [|x l IH]; simpl; [reflexivity|].
  destruct (Q x) eqn:HQ; simpl; [now rewrite IH|].
  destruct (P x) eqn:HP; [|assumption].
  rewrite (Himp x HP) in HQ. discriminate.
Qed.

(** X12: evictions compose.  An eviction at a later time does away with
    what an earlier one has done: running [cleanupOldPosts] at [now1] and
    then at [now2], with [now1 <= now2], leaves the state that running it
    at [now2] alone leaves; in particular running it twice at the same
    time changes nothing the second time. *)
Theorem cleanupOldPosts_compose (now1 now2 : Z) (st : State) :
  (now1 <= now2)%Z ->
  cleanupOldPosts now2 (cleanupOldPosts now1 st) = cleanupOldPosts now2 st.
Proof.
  intros Hle. unfold cleanupOldPosts, deleteOlderThan. cbn [db setDb].
  rewrite filter_filter_weaker; [reflexivity|].
  intros r Hr. apply negb_true_iff, Z.ltb_ge in Hr.
  apply negb_true_iff, Z.ltb_ge. lia.
Qed.

Lemma cleanupOldPosts_compose_witness :
  cleanupOldPosts 3602000 (cleanupOldPosts 3601500 storedE1E2) =
  cleanupOldPosts 3602000 storedE1E2.
Proof. apply (cleanupOldPosts_compose 3601500 3602000 storedE1E2). lia. Defined.

(** ** Batching is transparent *)

Lemma addPost_flush_db `{Host} (p : Post.t) (st : State) :
  insertMany (batchBuffer (addPost p st)) (db (addPost p st)) =
  insertMany (batchBuffer st ++ [p]) (db st).
Proof.
  unfold addPost. cbn [batchBuffer setBatchBuffer].
  destruct (BATCH_SIZE <=? length (batchBuffer st ++ [p]))%nat; [|reflexivity].
  now rewrite flushPosts_batchBuffer, flushPosts_db.
Qed.

(** X13: batching does not change what gets stored.  After any sequence
    of submits, with the flushes that the threshold has triggered on the
    way, a final flush leaves the table that inserting the buffered and
    the submitted posts one by one, in order, would leave. *)
Theorem batching_transparent `{Host} (ps : list Post.t) (st : State) :
  db (flushPosts (run (map FeedPost ps) st)) =
  insertMany (batchBuffer st ++ ps) (db st).
Proof.
  rewrite flushPosts_db. revert st. induction ps as [|p ps IH]; intros st.
  - now rewrite app_nil_r.
  - change (run (map FeedPost (p :: ps)) st) with (run (map FeedPost ps) (addPost p st)).
    rewrite IH, insertMany_app, addPost_flush_db, <- insertMany_app, <- app_assoc.
    reflexivity.
Qed.

(** ** The feed handler *)

Lemma orElse_truthy (v : option string) (d : string) : truthy v = true -> orElse v d <> "".
Proof. destruct v as [[|c s]|]; simpl; congruence. Qed.

Lemma fieldOr_nonempty (v : Field) (d : string) : d <> "" -> fieldOr v d <> "".
Proof. intros Hd. destruct v as [| |[|c s]]; simpl; congruence. Qed.

(** The milliseconds of a [time_us] that a double holds exactly are a
    time a [Date] holds. *)
Lemma validTime_quot (t : Z) : safeInteger t = true -> validTime (Z.quot t 1000) = true.
Proof.
  unfold safeInteger, validTime. intros Ht.
  apply andb_true_iff in Ht as [Hlo Hhi]. apply Z.leb_le in Hlo, Hhi.
  pose proof (Z.quot_rem' t 1000) as Hq.
  pose proof (Z.rem_bound_abs t 1000 ltac:(lia)) as Hr.
  apply andb_true_iff. split; apply Z.leb_le; lia.
Qed.

Lemma validTime_messageTime (m : Message) (now : Z) :
  safeTime (Some m) = true -> validTime now = true -> validTime (messageTime m now) = true.
Proof.
  unfold safeTime, messageTime. intros Hs Hnow. destruct (time_us m) as [t|]; [|exact Hnow].
  case_bool_decide; [exact Hnow | now apply validTime_quot].
Qed.

(** X14: what the feed handler does with a frame whose [time_us], if it
    has one, is an integer that a double holds exactly (at most 2^53 in
    absolute value), the clock showing a valid time.  Either nothing at
    all, and then the frame is no text or no JSON, or the message is no
    creation of a post in [app.bsky.feed.post], or its text is missing or
    empty; or exactly one call of [addPost], with a post whose text is the
    text of the record and not empty, whose author is [did], or "unknown"
    when [did] is missing, null or empty, whose uri is built from [did] and
    [rkey] alone, and whose timestamp prints the milliseconds of [time_us],
    rounded towards zero, or the clock when [time_us] is missing or 0: no
    such frame is dropped for its date. *)
Theorem onMessage_submits `{Host} (frame : option Message) (now : Z) (st : State) :
  safeTime frame = true -> validTime now = true ->
  (onMessage frame now st = st /\
   forall m cm, frame = Some m -> isCreatePost m = Some cm -> truthy (recordText cm) = false) \/
  exists m cm p,
    frame = Some m /\ isCreatePost m = Some cm /\
    onMessage frame now st = addPost p st /\
    Post.text p <> "" /\ recordText cm = Some (Post.text p) /\
    Post.author p = fieldOr (did m) "unknown" /\ Post.author p <> "" /\
    Post.uri p = "at://" ++ templ (did m) ++ "/app.bsky.feed.post/" ++ templ (rkey cm) /\
    Post.timestamp p =
      toISOString (match time_us m with
                   | Some t => if bool_decide (t = 0%Z) then now else Z.quot t 1000
                   | None => now
                   end).
Proof.
  intros Hsafe Hnow. unfold onMessage. destruct frame as [m|]; [|left; split; [reflexivity|]].
  2: { intros m cm [=]. }
  destruct (isCreatePost m) as [cm|] eqn:Hc; [|left; split; [reflexivity|]].
  2: { intros m' cm' [= <-]. congruence. }
  destruct (truthy (recordText cm)) eqn:Ht; [|left; split; [reflexivity|]].
  2: { intros m' cm' [= <-] Hc'. congruence. }
  rewrite (validTime_messageTime m now Hsafe Hnow).
  right. eexists m, cm, _. split; [reflexivity|]. split; [exact Hc|].
  split; [reflexivity|]. cbn [Post.text Post.author Post.uri Post.timestamp].
  split; [now apply orElse_truthy|].
  split; [destruct (recordText cm) as [[|c s]|]; try discriminate; reflexivity|].
  split; [reflexivity|].
  split; [apply fieldOr_nonempty; discriminate|].
  split; reflexivity.
Qed.

Lemma onMessage_submits_witness :
  (@onMessage exampleHost (Some createHello) 5 initial = initial /\
   forall m cm, Some createHello = Some m -> isCreatePost m = Some cm ->
                truthy (recordText cm) = false) \/
  exists m cm p,
    Some createHello = Some m /\ isCreatePost m = Some cm /\
    @onMessage exampleHost (Some createHello) 5 initial = @addPost exampleHost p initial /\
    Post.text p <> "" /\ recordText cm = Some (Post.text p) /\
    Post.author p = fieldOr (did m) "unknown" /\ Post.author p <> "" /\
    Post.uri p = "at://" ++ templ (did m) ++ "/app.bsky.feed.post/" ++ templ (rkey cm) /\
    Post.timestamp p =
      @toISOString exampleHost
        (match time_us m with
         | Some t => if bool_decide (t = 0%Z) then 5%Z else Z.quot t 1000
         | None => 5%Z
         end).
Proof. apply (@onMessage_submits exampleHost (Some createHello) 5 initial); reflexivity. Defined.

Example onMessage_scenario :
  batchBuffer (@onMessage exampleHost (Some createHello) 0 initial) =
    [Post.mk "did:plc:x" "hello" "2024-09-09T19:46:02.329Z"
       "at://did:plc:x/app.bsky.feed.post/3k"] /\
  batchBuffer (@onMessage exampleHost (Some createAnonymous) 1000 initial) =
    [Post.mk "unknown" "hello" "1970-01-01T00:00:01.000Z"
       "at://null/app.bsky.feed.post/undefined"] /\
  @onMessage exampleHost (Some deleteHello) 0 initial = initial /\
  @onMessage exampleHost None 0 initial = initial.
Proof. repeat split. Qed.

Lemma onMessage_cases `{Host} (frame : option Message) (now : Z) (st : State) :
  onMessage frame now st = st \/
  exists p, onMessage frame now st = addPost p st /\
            Post.text p <> "" /\ Post.author p <> "".
Proof.
  unfold onMessage. destruct frame as [m|]; [|now left].
  destruct (isCreatePost m) as [cm|]; [|now left].
  destruct (truthy (recordText cm)) eqn:Ht; [|now left].
  destruct (validTime (messageTime m now)); [|now left].
  right. eexists. split; [reflexivity|]. cbn [Post.text Post.author]. split.
  - now apply orElse_truthy.
  - apply fieldOr_nonempty. discriminate.
Qed.

Lemma wf_onMessage `{Host} (frame : option Message) (now : Z) (st : State) :
  wf st -> wf (onMessage frame now st).
Proof.
  intros Hwf. destruct (onMessage_cases frame now st) as [->|(p & -> & _)];
    [assumption | now apply wf_addPost].
Qed.

Lemma flushPosts_good `{Host} (st : State) (P : Post.t -> Prop) (Q : Row.t -> Prop) :
  (forall p, P p -> Q (postRow p)) ->
  (forall p, In p (batchBuffer st) -> P p) -> (forall r, In r (db st) -> Q r) ->
  forall r, In r (db (flushPosts st)) -> Q r.
Proof.
  intros HPQ Hb Hd r Hr. rewrite flushPosts_db in Hr.
  destruct (insertMany_appends (batchBuffer st) (db st)) as (new & Heq & Hnew & _).
  rewrite Heq in Hr. apply in_app_or in Hr as [Hr|Hr]; [now apply Hd|].
  destruct (Hnew r Hr) as (p & Hp & -> & _). apply HPQ. now apply Hb.
Qed.

Lemma addPost_good `{Host} (p : Post.t) (st : State) (P : Post.t -> Prop)
    (Q : Row.t -> Prop) :
  (forall p, P p -> Q (postRow p)) -> P p ->
  (forall p, In p (batchBuffer st) -> P p) -> (forall r, In r (db st) -> Q r) ->
  (forall q, In q (batchBuffer (addPost p st)) -> P q) /\
  (forall r, In r (db (addPost p st)) -> Q r).
Proof.
  intros HPQ Hp Hb Hd.
  assert (Hb' : forall q, In q (batchBuffer st ++ [p]) -> P q).
  { intros q Hq. apply in_app_or in Hq as [Hq|[<-|[]]]; [now apply Hb | assumption]. }
  unfold addPost. cbn [batchBuffer setBatchBuffer].
  destruct (BATCH_SIZE <=? length (batchBuffer st ++ [p]))%nat.
  - split.
    + rewrite flushPosts_batchBuffer. intros q [].
    + now apply (flushPosts_good _ P Q).
  - split; assumption.
Qed.

(** X15: the feed handler never lets an empty post in.  Starting with an
    empty table and buffer and handling any frames, every post in the
    buffer and every row the flushes have stored has a text and an author
    that are not empty. *)
Theorem feed_stores_no_empty_post `{Host} (frames : list (option Message * Z)) :
  (forall p, In p (batchBuffer (feed frames initial)) ->
     Post.text p <> "" /\ Post.author p <> "") /\
  (forall r, In r (db (feed frames initial)) ->
     Row.text r <> "" /\ Row.author r <> "") /\
  (forall r, In r (db (flushPosts (feed frames initial))) ->
     Row.text r <> "" /\ Row.author r <> "").
Proof.
  set (P := fun p : Post.t => Post.text p <> "" /\ Post.author p <> "").
  set (Q := fun r : Row.t => Row.text r <> "" /\ Row.author r <> "").
  assert (HPQ : forall p, P p -> Q (postRow p)) by (intros p Hp; exact Hp).
  assert (Hinv : forall st,
             (forall p, In p (batchBuffer st) -> P p) /\ (forall r, In r (db st) -> Q r) ->
             (forall p, In p (batchBuffer (feed frames st)) -> P p) /\
             (forall r, In r (db (feed frames st)) -> Q r)).
  { unfold feed. induction frames as [|[fr now] frames IH]; intros st Hst; [exact Hst|].
    cbn [fold_left]. apply IH. cbn [fst snd].
    destruct (onMessage_cases fr now st) as [->|(p & -> & Hp)]; [exact Hst|].
    destruct Hst as [Hb Hd]. now apply (addPost_good p st P Q). }
  destruct (Hinv initial) as [Hb Hd].
  { split; intros ? []. }
  split; [exact Hb|]. split; [exact Hd|].
  now apply (flushPosts_good _ P Q).
Qed.

(** ** Fan-out of "posts.added" *)

Lemma fold_postsListener_same (l : list nat) (c : nat) (s : State) (cn : Conn) :
  NoDup l -> c ∈ l -> streams s !! c = Some cn ->
  streams (fold_left (fun s c' => postsListener c' s) l s) !! c = Some (buffered cn).
Proof.
  intros Hnd. revert s. induction Hnd as [|c' l Hc' Hnd IH]; intros s Hin Hc.
  - now apply elem_of_nil in Hin.
  - simpl. apply elem_of_cons in Hin as [->|Hin].
    + rewrite fold_postsListener_notin by assumption.
      unfold postsListener. now rewrite queueUpdate_lookup, Hc.
    + assert (Hne : c <> c') by (intros ->; contradiction).
      apply IH; [assumption|].
      unfold postsListener. now rewrite queueUpdate_lookup_ne.
Qed.

(** X16: "posts.added" reaches every live stream once.  In a state the
    server can be in, publishing it buffers exactly one more update in
    every open stream and leaves every closed stream as it was. *)
Theorem postsAdded_fanout (st : State) (c : nat) (cn : Conn) :
  wf st -> streams st !! c = Some cn ->
  streams (emit PostsAdded st) !! c =
    Some (if c_open cn
          then mkConn (c_session cn) (c_tab cn) (S (c_pending cn)) true
          else cn).
Proof.
  intros Hwf Hc. unfold emit. cbn zeta. cbn [postsAddedListeners setEmitted].
  set (s0 := setEmitted (emitted st ++ [PostsAdded]) st).
  assert (Hc0 : streams s0 !! c = Some cn) by exact Hc.
  destruct (c_open cn) eqn:Ho.
  - rewrite (fold_postsListener_same _ c s0 cn); try assumption.
    + unfold buffered. now rewrite Ho.
    + apply (wf_postsAdded_NoDup _ Hwf).
    + apply (wf_postsAdded_live _ Hwf). now exists cn.
  - rewrite fold_postsListener_notin; [assumption|].
    intros Hin. apply (wf_postsAdded_live _ Hwf) in Hin as (cn' & Hc' & Ho'). congruence.
Qed.

Lemma postsAdded_fanout_witness :
  streams (emit PostsAdded (abort 0 liveAB)) !! 1%nat =
    Some (if c_open (mkConn (Session.mk "session-2" "happy-tiger") 1 0 true)
          then mkConn (Session.mk "session-2" "happy-tiger") 1 1 true
          else mkConn (Session.mk "session-2" "happy-tiger") 1 0 true).
Proof.
  apply (postsAdded_fanout (abort 0 liveAB) 1
           (mkConn (Session.mk "session-2" "happy-tiger") 1 0 true)).
  - apply wf_abort, wf_liveAB.
  - reflexivity.
Defined.

Example fanout_scenario :
  map c_pending (streams (emit PostsAdded liveAB)) = [1; 1]%nat /\
  map c_pending (streams (emit PostsAdded (abort 0 liveAB))) = [0; 1]%nat.
Proof. split; reflexivity. Qed.

(** ** Subscriptions and streams *)

Lemma liveStreams_elem (st : State) (c : nat) : c ∈ liveStreams st <-> liveStream st c.
Proof.
  unfold liveStreams, liveStream. rewrite list_elem_of_In, filter_In, in_seq. split.
  - intros [_ Hc]. destruct (streams st !! c) as [cn|]; [|discriminate]. now exists cn.
  - intros (cn & Hc & Ho). rewrite Hc. split; [|assumption].
    apply lookup_lt_Some in Hc. lia.
Qed.

Lemma liveStreams_NoDup (st : State) : NoDup (liveStreams st).
Proof. apply NoDup_ListNoDup, List.NoDup_filter, seq_NoDup. Qed.

(** X17: subscriptions are paired with streams.  In every state the
    server reaches while the filters it is sent are within the limit of
    LIKE (fewer than 49,999 characters), the listeners registered for
    "posts.added", and those registered for "filter.updated", are the
    streams that have not been aborted, each exactly once: no listener
    outlives the abort of its stream, and none is missing or doubled. *)
Theorem listeners_are_live_streams `{Host} (es : list Event) :
  forallb filterWithinLimit es = true ->
  postsAddedListeners (run es initial) ≡ₚ liveStreams (run es initial) /\
  filterUpdatedListeners (run es initial) ≡ₚ liveStreams (run es initial).
Proof.
  intros Hes. destruct (wf_reachable es Hes) as [_ _ Hn1 Hn2 Hl1 Hl2 _ _].
  split; apply NoDup_Permutation; try assumption; try apply liveStreams_NoDup.
  - intros c. now rewrite Hl1, liveStreams_elem.
  - intros c. now rewrite Hl2, liveStreams_elem.
Qed.

Lemma listeners_are_live_streams_witness :
  postsAddedListeners
    (@run exampleHost
       [GetLive None (Some "tabA") draws1; GetLive None (Some "tabB") draws2;
        PostFilter (Some "tabA") (Some "hello"); FeedPost E1; FlushTick; Update 0; Abort 0]
       initial)
  ≡ₚ liveStreams
       (@run exampleHost
          [GetLive None (Some "tabA") draws1; GetLive None (Some "tabB") draws2;
           PostFilter (Some "tabA") (Some "hello"); FeedPost E1; FlushTick; Update 0; Abort 0]
          initial) /\
  filterUpdatedListeners
    (@run exampleHost
       [GetLive None (Some "tabA") draws1; GetLive None (Some "tabB") draws2;
        PostFilter (Some "tabA") (Some "hello"); FeedPost E1; FlushTick; Update 0; Abort 0]
       initial)
  ≡ₚ liveStreams
       (@run exampleHost
          [GetLive None (Some "tabA") draws1; GetLive None (Some "tabB") draws2;
           PostFilter (Some "tabA") (Some "hello"); FeedPost E1; FlushTick; Update 0; Abort 0]
          initial).
Proof.
  apply (@listeners_are_live_streams exampleHost
           [GetLive None (Some "tabA") draws1; GetLive None (Some "tabB") draws2;
            PostFilter (Some "tabA") (Some "hello"); FeedPost E1; FlushTick; Update 0; Abort 0]).
  reflexivity.
Defined.

(** A filter of 49,999 characters is stored like any other, but with a
    row in the table the next turn of the loop throws in [queryPosts]:
    nothing is written, the loop of the stream is over, and its two
    listeners and its tab id stay registered. *)
Example overlong_filter_scenario :
  let st := snd (postFilter (Some "tabA") (Some (repeatChar (Z.to_nat 49999) "a"%char))
                   (setDb [rowE1] liveAB)) in
  likeTooComplex (repeatChar (Z.to_nat 49998) "a"%char) = false /\
  likeTooComplex (repeatChar (Z.to_nat 49999) "a"%char) = true /\
  map c_pending (streams st) = [1; 0]%nat /\
  fst (@update exampleHost 0 st) = Quiet /\
  map c_open (streams (snd (@update exampleHost 0 st))) = [false; true] /\
  map c_pending (streams (snd (@update exampleHost 0 st))) = [0; 0]%nat /\
  postsAddedListeners (snd (@update exampleHost 0 st)) = [0; 1]%nat /\
  filterUpdatedListeners (snd (@update exampleHost 0 st)) = [0; 1]%nat /\
  map fst (map_to_list (tabs (snd (@update exampleHost 0 st)))) = ["tabA"; "tabB"].
Proof. vm_compute. repeat split. Qed.

(** X18: the store side of the invariant.  In every state the server
    reaches, no two rows of the table have the same uri, the batch buffer
    holds fewer than 100 posts, and every id in [tabs] is the id of the
    tab object it is registered for. *)
Theorem store_invariants `{Host} (es : list Event) :
  List.NoDup (map Row.uri (db (run es initial))) /\
  (length (batchBuffer (run es initial)) < 100)%nat /\
  (forall tid ref, tabs (run es initial) !! tid = Some ref ->
     exists tab, tabObjects (run es initial) !! ref = Some tab /\ Tab.id tab = tid).
Proof.
  assert (Hgen : forall st,
             (List.NoDup (map Row.uri (db st)) /\
              (length (batchBuffer st) < BATCH_SIZE)%nat /\
              (forall tid ref, tabs st !! tid = Some ref ->
                 exists tab, tabObjects st !! ref = Some tab /\ Tab.id tab = tid)) ->
             List.NoDup (map Row.uri (db (run es st))) /\
             (length (batchBuffer (run es st)) < BATCH_SIZE)%nat /\
             (forall tid ref, tabs (run es st) !! tid = Some ref ->
                exists tab, tabObjects (run es st) !! ref = Some tab /\ Tab.id tab = tid)).
  { induction es as [|e es IH]; intros st Hst; [exact Hst|].
    change (run (e :: es) st) with (run es (snd (step e st))).
    apply IH. now apply store_step. }
  apply Hgen. destruct wf_initial as [Ht _ _ _ _ _ Hdb Hb]. auto.
Qed.

(** X25: the contract of [POST /filter] holds in every state the server
    reaches, whatever has happened before, a loop left by an exception
    included.  A missing or empty tab id is answered with 400 and an id
    that is not in [tabs] with 404, the state staying what it was; for an
    id in [tabs] the filter of the tab object registered for it, and of no
    other, is set, and "filter.updated" is published once with that id. *)
Theorem postFilter_contract_reachable `{Host} (es : list Event)
    (tabId filter : option string) :
  (truthy tabId = false ->
   postFilter tabId filter (run es initial) = (Json 400 "Missing tab ID", run es initial)) /\
  (forall tid, tabId = Some tid -> tid <> "" -> tabs (run es initial) !! tid = None ->
   postFilter tabId filter (run es initial) = (Json 404 "Tab not found", run es initial)) /\
  (forall tid ref, tabId = Some tid -> tid <> "" ->
   tabs (run es initial) !! tid = Some ref ->
   exists tab,
     tabObjects (run es initial) !! ref = Some tab /\ Tab.id tab = tid /\
     fst (postFilter tabId filter (run es initial)) = NoBody /\
     tabObjects (snd (postFilter tabId filter (run es initial))) !! ref =
       Some (Tab.mk tid (Tab.sessionId tab) (orElse filter "")) /\
     (forall ref', ref' <> ref ->
        tabObjects (snd (postFilter tabId filter (run es initial))) !! ref' =
        tabObjects (run es initial) !! ref') /\
     tabs (snd (postFilter tabId filter (run es initial))) = tabs (run es initial) /\
     emitted (snd (postFilter tabId filter (run es initial))) =
       (emitted (run es initial) ++ [FilterUpdated tid])%list).
Proof.
  assert (Hkeyed : forall st,
             (List.NoDup (map Row.uri (db st)) /\
              (length (batchBuffer st) < BATCH_SIZE)%nat /\
              (forall tid ref, tabs st !! tid = Some ref ->
                 exists tab, tabObjects st !! ref = Some tab /\ Tab.id tab = tid)) ->
             forall tid ref, tabs (run es st) !! tid = Some ref ->
               exists tab, tabObjects (run es st) !! ref = Some tab /\ Tab.id tab = tid).
  { induction es as [|e es IH]; intros st Hst; [apply Hst|].
    change (run (e :: es) st) with (run es (snd (step e st))).
    apply IH. now apply store_step. }
  specialize (Hkeyed initial).
  generalize dependent (run es initial). intros st Hst.
  split; [|split].
  - intros Hf. unfold postFilter. destruct tabId as [tid|]; [|reflexivity].
    now rewrite Hf.
  - intros tid -> Hne Hlk. unfold postFilter.
    rewrite (proj2 (truthy_Some tid) Hne), Hlk. reflexivity.
  - intros tid ref -> Hne Hlk. apply postFilter_keyed; [|assumption|assumption].
    apply Hst. destruct wf_initial as [Ht _ _ _ _ _ Hdb Hb]. auto.
Qed.

(** ** Sessions *)

Lemma flushPosts_sessions `{Host} (st : State) : sessions (flushPosts st) = sessions st.
Proof.
  unfold flushPosts. destruct (batchBuffer st); [reflexivity|]. now rewrite emit_sessions.
Qed.

Lemma addPost_sessions `{Host} (p : Post.t) (st : State) :
  sessions (addPost p st) = sessions st.
Proof.
  unfold addPost. destruct (_ <=? _)%nat; [|reflexivity]. now rewrite flushPosts_sessions.
Qed.

Lemma getOrCreateSession_sessions (sid : option string) (r : Draws) (st : State) :
  (sessions (snd (getOrCreateSession sid r st)) = sessions st /\
   exists k, sid = Some k /\ k <> "" /\
             sessions st !! k = Some (fst (getOrCreateSession sid r st))) \/
  (fst (getOrCreateSession sid r st) = Session.mk (sessionUuid r) (generateSessionName r) /\
   sessions (snd (getOrCreateSession sid r st)) =
     <[sessionUuid r := fst (getOrCreateSession sid r st)]> (sessions st) /\
   forall k, sid = Some k -> k <> "" -> sessions st !! k = None).
Proof.
  unfold getOrCreateSession, newSession.
  destruct sid as [k|]; [|right; repeat split; discriminate].
  destruct k as [|a k]; [right; repeat split; intros ? [= <-]; congruence|].
  cbn [truthy]. destruct (sessions st !! String a k) as [s|] eqn:Hk.
  - left. split; [reflexivity|]. exists (String a k). repeat split; [discriminate|assumption].
  - right. repeat split. intros ? [= <-] _. assumption.
Qed.

Lemma getOrCreateTab_sessions (tid : option string) (sid : string) (r : Draws) (st : State) :
  sessions (snd (getOrCreateTab tid sid r st)) = sessions st.
Proof.
  destruct (getOrCreateTab_cases tid sid r st) as [(? & ? & _ & _ & _ & ->)|[_ ->]];
    reflexivity.
Qed.

(** What a callback can do to [sessions]: nothing, or one [set] of a
    session under its own id. *)
Lemma step_sessions `{Host} (e : Event) (st : State) :
  sessions (snd (step e st)) = sessions st \/
  exists s, sessions (snd (step e st)) = <[Session.id s := s]> (sessions st).
Proof.
  assert (Hs : forall sid r,
             sessions (snd (getOrCreateSession sid r st)) = sessions st \/
             exists s, sessions (snd (getOrCreateSession sid r st)) =
                       <[Session.id s := s]> (sessions st)).
  { intros sid r. destruct (getOrCreateSession_sessions sid r st) as [[Heq _]|(Hf & Heq & _)].
    - now left.
    - right. exists (fst (getOrCreateSession sid r st)). rewrite Heq. now rewrite Hf. }
  destruct e; cbn [step snd].
  - unfold getPage. specialize (Hs cookieSessionId r).
    destruct (getOrCreateSession cookieSessionId r st). exact Hs.
  - unfold getLive. specialize (Hs sessionId r).
    destruct (getOrCreateSession sessionId r st) as [session s1].
    pose proof (getOrCreateTab_sessions (signalTabId tabId) (Session.id session) r s1) as Ht.
    destruct (getOrCreateTab (signalTabId tabId) (Session.id session) r s1) as [ref s2].
    simpl in *. now rewrite Ht.
  - left. unfold postFilter. destruct tabId as [tid|]; [|reflexivity].
    destruct (truthy (Some tid)); [|reflexivity].
    destruct (tabs st !! tid); [|reflexivity]. cbn [snd]. now rewrite emit_sessions.
  - left. unfold abort. destruct (streams st !! c) as [cn|]; [|reflexivity].
    now destruct (c_open cn).
  - left. now rewrite update_frame.
  - left. apply addPost_sessions.
  - left. apply flushPosts_sessions.
  - now left.
Qed.

(** X19: sessions are kept for good.  Whatever happens, a session that
    is registered stays registered (no callback removes one), and in every
    state the server reaches each session is registered under its own id. *)
Theorem sessions_never_removed `{Host} (es es' : list Event) :
  dom (sessions (run es initial)) ⊆ dom (sessions (run es' (run es initial))) /\
  (forall k s, sessions (run es initial) !! k = Some s -> Session.id s = k).
Proof.
  split.
  - generalize (run es initial). induction es' as [|e es' IH]; intros st; [reflexivity|].
    change (run (e :: es') st) with (run es' (snd (step e st))).
    etransitivity; [|apply IH].
    destruct (step_sessions e st) as [->|[s ->]]; [reflexivity|].
    rewrite dom_insert_L. set_solver.
  - assert (Hgen : forall st, (forall k s, sessions st !! k = Some s -> Session.id s = k) ->
                              forall k s, sessions (run es st) !! k = Some s ->
                                          Session.id s = k).
    { induction es as [|e es IH]; intros st Hst; [exact Hst|].
      change (run (e :: es) st) with (run es (snd (step e st))). apply IH.
      destruct (step_sessions e st) as [->|[s0 ->]]; [exact Hst|].
      intros k s Hk. apply lookup_insert_Some in Hk as [[<- <-]|[_ Hk]];
        [reflexivity | now apply Hst]. }
    apply Hgen. intros k s Hk. simpl in Hk. now rewrite lookup_empty in Hk.
Qed.

(** ** A tab shared by two streams *)




(** ** From a filter update to the next patch *)



(** ** The patch event *)

Lemma stripNewlines_none (s : string) : occurs "010"%char (stripNewlines s) = false.
Proof.
  induction s as [|c s IH]; [reflexivity|]. cbn [stripNewlines].
  case_bool_decide as Hc; [assumption|]. cbn [occurs].
  now rewrite IH, bool_decide_eq_false_2.
Qed.

Lemma stripNewlines_others (c : ascii) (s : string) :
  c <> "010"%char -> occurs c (stripNewlines s) = occurs c s.
Proof.
  intros Hc. induction s as [|x s IH]; [reflexivity|]. cbn [stripNewlines occurs].
  case_bool_decide as Hx.
  - subst x. rewrite IH. now rewrite bool_decide_eq_false_2 by congruence.
  - cbn [occurs]. now rewrite IH.
Qed.

(** X22: the data of a patch event holds no line feed.  Whatever the
    components render, the string [sendUpdate] hands to [writeSSE] begins
    with the word "elements" and U+000A does not occur in it; every other
    character the components render is passed on, the carriage return
    among them, so the data need not be a single line. *)
Theorem patchData_no_line_feed `{Host} (session : Session.t) (tab : Tab.t) (st : State) :
  occurs "010"%char (patchData (sendUpdate session tab st)) = false /\
  startsWith "elements " (patchData (sendUpdate session tab st)) = true /\
  (forall c, c <> "010"%char ->
     occurs c (patchData (sendUpdate session tab st)) =
     occurs c ("elements "
               ++ render (PostsEl (queryPosts (effectiveFilter tab) (db st))
                            (effectiveFilter tab))
               ++ " "
               ++ render (StatsEl (effectiveFilter tab)
                            (length (queryPosts (effectiveFilter tab) (db st)))
                            (getTotalCount (db st)))
               ++ " "
               ++ render (DebugInfo session tab (getTotalCount (db st)) st))).
Proof.
  unfold patchData, sendUpdate. cbn [postsHtml statsHtml debugHtml]. split; [|split].
  - rewrite !occurs_app, !stripNewlines_none. reflexivity.
  - apply startsWith_true. eexists. reflexivity.
  - intros c Hc. rewrite !occurs_app. now rewrite !stripNewlines_others by assumption.
Qed.

(** A carriage return in the text of a post is in the data of the patch. *)
Example patchData_carriage_return :
  occurs "013"%char
    (patchData
       (@sendUpdate exampleHost (Session.mk "session-1" "sleepy-fox")
          (Tab.mk "tabA" "session-1" "")
          (setDb [Row.mk "u1" "did:a" ("one" ++ String "013"%char "two") 1000] liveAB)))
  = true.
Proof. vm_compute. reflexivity. Qed.

(** ** The update loop *)

(** X23: the loop of a stream writes one patch for each buffered update,
    no more and no fewer, as long as [sendUpdate] returns.  With [n]
    updates buffered in an open stream whose tab has a filter within the
    limit of LIKE, [n] turns of its loop write [n] patch events and leave
    nothing buffered, and a further turn writes nothing and changes
    nothing. *)
Theorem update_drains `{Host} (st : State) (c : nat) (cn : Conn) :
  streams st !! c = Some cn -> c_open cn = true ->
  likeTooComplex (Tab.filter (tabObjects st !!! c_tab cn)) = false ->
  (exists ds, responses (replicate (c_pending cn) (Update c)) st = map (SsePatch c) ds /\
              length ds = c_pending cn) /\
  streams (run (replicate (c_pending cn) (Update c)) st) !! c =
    Some (mkConn (c_session cn) (c_tab cn) 0 true) /\
  update c (run (replicate (c_pending cn) (Update c)) st) =
    (Quiet, run (replicate (c_pending cn) (Update c)) st).
Proof.
  intros Hc Ho Hlimit.
  assert (Hgen : forall n st cn,
             streams st !! c = Some cn -> c_open cn = true -> c_pending cn = n ->
             likeTooComplex (Tab.filter (tabObjects st !!! c_tab cn)) = false ->
             (exists ds, responses (replicate n (Update c)) st = map (SsePatch c) ds /\
                         length ds = n) /\
             streams (run (replicate n (Update c)) st) !! c =
               Some (mkConn (c_session cn) (c_tab cn) 0 true)).
  { clear. induction n as [|n IH]; intros st cn Hc Ho Hp Hlimit.
    - split; [now exists []|]. simpl. rewrite Hc. f_equal.
      destruct cn as [s t p o]. simpl in *. now subst.
    - pose proof (update_returns c st cn n Hc Hp
                    (sendUpdateThrows_bounded _ st Hlimit)) as Hup.
      assert (Hnext : streams (snd (update c st)) !! c =
                      Some (mkConn (c_session cn) (c_tab cn) n true)).
      { rewrite Hup, Ho. cbn [snd streams setStreams].
        apply list_lookup_insert_eq. now apply lookup_lt_Some in Hc. }
      assert (Hobj : tabObjects (snd (update c st)) = tabObjects st)
        by now rewrite update_frame.
      destruct (IH (snd (update c st)) _ Hnext eq_refl eq_refl) as [(ds & Hds & Hlen) Hfin].
      { cbn [c_tab]. now rewrite Hobj. }
      split.
      + eexists (_ :: ds). cbn [replicate responses step]. rewrite Hds.
        rewrite Hup at 1. cbn [fst map length]. split; [reflexivity | now rewrite Hlen].
      + exact Hfin. }
  destruct (Hgen (c_pending cn) st cn Hc Ho eq_refl Hlimit) as [Hds Hfin].
  split; [exact Hds|]. split; [exact Hfin|].
  unfold update. now rewrite Hfin.
Qed.

Lemma update_drains_witness :
  (exists ds,
     @responses exampleHost
       (replicate (c_pending (mkConn (Session.mk "session-1" "sleepy-fox") 0 2 true))
          (Update 0))
       (emit PostsAdded (emit PostsAdded liveAB)) = map (SsePatch 0) ds /\
     length ds = c_pending (mkConn (Session.mk "session-1" "sleepy-fox") 0 2 true)) /\
  streams (@run exampleHost
             (replicate (c_pending (mkConn (Session.mk "session-1" "sleepy-fox") 0 2 true))
                (Update 0))
             (emit PostsAdded (emit PostsAdded liveAB))) !! 0%nat =
    Some (mkConn (c_session (mkConn (Session.mk "session-1" "sleepy-fox") 0 2 true))
            (c_tab (mkConn (Session.mk "session-1" "sleepy-fox") 0 2 true)) 0 true) /\
  @update exampleHost 0
    (@run exampleHost
       (replicate (c_pending (mkConn (Session.mk "session-1" "sleepy-fox") 0 2 true))
          (Update 0))
       (emit PostsAdded (emit PostsAdded liveAB))) =
    (Quiet,
     @run exampleHost
       (replicate (c_pending (mkConn (Session.mk "session-1" "sleepy-fox") 0 2 true))
          (Update 0))
       (emit PostsAdded (emit PostsAdded liveAB))).
Proof.
  apply (@update_drains exampleHost (emit PostsAdded (emit PostsAdded liveAB)) 0
           (mkConn (Session.mk "session-1" "sleepy-fox") 0 2 true)).
  - reflexivity.
  - reflexivity.
  - reflexivity.
Defined.

(** ** Opening a live connection *)


